(** * LOVE chat server: data access layer, request handlers, presence registry

    A shallow embedding of [server.js] (the dual-backend server) together
    with the two handlers of the PostgreSQL-only variant that the
    specification refers to, and with the older SQLite-only script
    kept in the same file.

    - The two database clients ([pg]'s [pool.query], [sqlite3]'s
      [sqliteDB.all] and [sqliteDB.run]) are an interface, [Driver];
      handlers are written against any driver and thread the store
      explicitly.  A promise that rejects is [inl err], one that
      resolves is [inr value].
    - [express] responses are a status code and a JSON body;
      [socket.io] emissions are collected in a list, in program order.
    - [onlineUsers] is a JavaScript object: own properties in creation
      order, enumerated the way [Object.keys] and [for .. in] do. *)

From Stdlib Require Import List String Ascii Bool Arith ZArith NArith Lia.
From Stdlib Require Import Permutation Sorted DecimalString.
Import ListNotations.

Set Warnings "-register-all".

Local Open Scope string_scope.

(* ================================================================== *)
(** ** JavaScript and SQL values *)
(* ================================================================== *)

(** Values a request body field can hold after [bodyParser.json()] /
    [bodyParser.urlencoded()]. *)
Inductive jsval : Type :=
| JUndefined
| JNull
| JBool (b : bool)
| JNum (z : Z)
| JStr (s : string).

(** JavaScript truthiness, as used by [!usb_present]. *)
Definition truthy (v : jsval) : bool :=
  match v with
  | JUndefined | JNull => false
  | JBool b => b
  | JNum z => negb (z =? 0)%Z
  | JStr s => negb (s =? "")
  end.

(** A column value as the drivers hand it back in a row object. *)
Inductive sqlval : Type :=
| SqlNull
| SqlInt (z : Z)
| SqlText (s : string).

Definition sqlval_eqb (a b : sqlval) : bool :=
  match a, b with
  | SqlNull, SqlNull => true
  | SqlInt x, SqlInt y => (x =? y)%Z
  | SqlText x, SqlText y => (x =? y)
  | _, _ => false
  end.

(** Truthiness of a column read from a row, as in [user.usb_key && ...]. *)
Definition sql_truthy (v : sqlval) : bool :=
  match v with
  | SqlNull => false
  | SqlInt z => negb (z =? 0)%Z
  | SqlText s => negb (s =? "")
  end.

(** A text field of a form: absent ([undefined]) or a string.  Both
    drivers bind [undefined] and [null] as SQL NULL. *)
Definition field := option string.

Definition bind (f : field) : sqlval :=
  match f with
  | Some s => SqlText s
  | None => SqlNull
  end.

(** [usb_key || null] *)
Definition or_null (f : field) : sqlval :=
  match f with
  | Some s => if s =? "" then SqlNull else SqlText s
  | None => SqlNull
  end.

(** A row object: column name to value, in column order. *)
Definition row := list (string * sqlval).

Fixpoint row_get (c : string) (r : row) : option sqlval :=
  match r with
  | [] => None
  | (k, v) :: r' => if k =? c then Some v else row_get c r'
  end.

(** [user.usb_key] used as a condition: a missing column reads
    [undefined], which is falsy. *)
Definition column_truthy (c : string) (r : row) : bool :=
  match row_get c r with
  | Some v => sql_truthy v
  | None => false
  end.

(* ================================================================== *)
(** ** JSON bodies and HTTP responses *)
(* ================================================================== *)

Inductive json : Type :=
| JsNull
| JsBool (b : bool)
| JsNum (z : Z)
| JsStr (s : string)
| JsArr (items : list json)
| JsObj (members : list (string * json)).

Definition sql_json (v : sqlval) : json :=
  match v with
  | SqlNull => JsNull
  | SqlInt z => JsNum z
  | SqlText s => JsStr s
  end.

Definition row_json (r : row) : json :=
  JsObj (map (fun kv => (fst kv, sql_json (snd kv))) r).

Fixpoint member (k : string) (ms : list (string * json)) : option json :=
  match ms with
  | [] => None
  | (k', v) :: ms' => if k' =? k then Some v else member k ms'
  end.

(** [o.k] on a JSON value; [None] is [undefined]. *)
Definition json_get (k : string) (j : json) : option json :=
  match j with
  | JsObj ms => member k ms
  | _ => None
  end.

Record Response : Type := { status : nat; body : json }.

(** [res.json(x)]: express answers 200 unless [res.status] was called. *)
Definition res_json (x : json) : Response := {| status := 200; body := x |}.

(** [res.status(n).json(x)] *)
Definition res_status_json (n : nat) (x : json) : Response :=
  {| status := n; body := x |}.

(* ================================================================== *)
(** ** Real-time channel *)
(* ================================================================== *)

Definition SocketId := string.

Inductive Event : Type :=
| newMessage (sender message : field) (timestamp : Z)
| updateOnline (users : list string)
| userTyping (username : string).

(** [io.emit] reaches every connected client; [socket.broadcast.emit]
    every client but the emitting socket. *)
Inductive Emit : Type :=
| io_emit (e : Event)
| broadcast_emit (from : SocketId) (e : Event).

(* ================================================================== *)
(** ** Store drivers *)
(* ================================================================== *)

Inductive dbType : Type := postgres | sqlite.

(** What a rejected store call carries. *)
Inductive StoreError : Type :=
| ErrConstraint      (* UNIQUE constraint failed / unique_violation *)
| ErrSyntax          (* the engine could not parse the statement *)
| ErrBind            (* wrong number of bound parameters *)
| ErrConnection.     (* the store could not be reached *)

(** [pg]'s result object. *)
Record PgResult : Type := { pg_rows : list row; rowCount : nat }.

(** [this] inside the callback of [sqliteDB.run]. *)
Record Statement : Type := { lastID : Z; changes : nat }.

(** What [runExecute] resolves with: [result] or [this]. *)
Inductive ExecResult : Type :=
| ExecPg (r : PgResult)
| ExecSqlite (s : Statement).

(** The three client entry points the server calls.  [now] is the
    store's clock at the call, in milliseconds since 1970-01-01 UTC,
    which the engines use for [DEFAULT CURRENT_TIMESTAMP]. *)
Record Driver (Store : Type) : Type := {
  pool_query : string -> list sqlval -> Z -> Store -> (StoreError + PgResult) * Store;
  sqlite_all : string -> list sqlval -> Z -> Store -> (StoreError + list row) * Store;
  sqlite_run : string -> list sqlval -> Z -> Store -> (StoreError + Statement) * Store
}.

Arguments pool_query {Store} _ _ _ _ _.
Arguments sqlite_all {Store} _ _ _ _ _.
Arguments sqlite_run {Store} _ _ _ _ _.

Definition then_ {E A B S : Type} (f : A -> B) (p : (E + A) * S) : (E + B) * S :=
  match p with
  | (inl e, s) => (inl e, s)
  | (inr a, s) => (inr (f a), s)
  end.

(* ================================================================== *)
(** ** The server *)
(* ================================================================== *)

Module Sql.
Definition insert_user :=
    "INSERT INTO users(username,password,profile_pic,usb_key) VALUES(?,?,?,?)".
Definition select_user :=
    "SELECT * FROM users WHERE username=? AND password=?".
Definition select_messages :=
    "SELECT * FROM messages ORDER BY timestamp ASC".
Definition insert_message :=
    "INSERT INTO messages(sender,message) VALUES(?,?)".
End Sql.

Record RegisterBody : Type := {
  reg_username : field;
  reg_password : field;
  reg_usb_key : field;
  reg_file : option string          (* req.file.filename, when a file came *)
}.

Record LoginBody : Type := {
  login_username : field;
  login_password : field;
  usb_present : jsval
}.

Record MessageBody : Type := {
  msg_sender : field;
  msg_message : field
}.

Definition success_true : json := JsObj [("success", JsBool true)].
Definition success_false : json := JsObj [("success", JsBool false)].
Definition failure (m : string) : json :=
  JsObj [("success", JsBool false); ("message", JsStr m)].

Section Server.

Context {Store : Type}.
Variable drv : Driver Store.
Variable db : dbType.

  (** [runQuery(sql, params)] *)
Definition runQuery (sql : string) (params : list sqlval) (now : Z) (st : Store)
    : (StoreError + list row) * Store :=
    match db with
    | postgres => then_ pg_rows (pool_query drv sql params now st)
    | sqlite => sqlite_all drv sql params now st
    end.

  (** [runExecute(sql, params)] *)
Definition runExecute (sql : string) (params : list sqlval) (now : Z) (st : Store)
    : (StoreError + ExecResult) * Store :=
    match db with
    | postgres => then_ ExecPg (pool_query drv sql params now st)
    | sqlite => then_ ExecSqlite (sqlite_run drv sql params now st)
    end.

  (** [app.post('/register', ...)] *)
Definition post_register (req : RegisterBody) (now : Z) (st : Store)
    : Response * Store :=
    let profile_pic :=
      match reg_file req with
      | Some filename => "/uploads/" ++ filename
      | None => ""
      end in
    match runExecute Sql.insert_user
            [bind (reg_username req); bind (reg_password req);
             SqlText profile_pic; or_null (reg_usb_key req)] now st with
    | (inr _, st') => (res_json success_true, st')
    | (inl _, st') => (res_json (failure "Username exists"), st')
    end.

  (** [app.post('/login', ...)] *)
Definition post_login (req : LoginBody) (now : Z) (st : Store)
    : Response * Store :=
    match runQuery Sql.select_user
            [bind (login_username req); bind (login_password req)] now st with
    | (inr rows, st') =>
        match rows with
        | [] => (res_json (failure "Invalid login"), st')
        | user :: _ =>
            if column_truthy "usb_key" user && negb (truthy (usb_present req))
            then (res_json (failure "USB required"), st')
            else (res_json (JsObj [("success", JsBool true); ("user", row_json user)]), st')
        end
    | (inl _, st') => (res_json success_false, st')
    end.

  (** [app.get('/messages', ...)] *)
Definition get_messages (now : Z) (st : Store) : Response * Store :=
    match runQuery Sql.select_messages [] now st with
    | (inr rows, st') => (res_json (JsArr (map row_json rows)), st')
    | (inl _, st') => (res_json (JsArr []), st')
    end.

  (** [app.post('/message', ...)]; [date] is [new Date()] at the emit. *)
Definition post_message (req : MessageBody) (now date : Z) (st : Store)
    : Response * list Emit * Store :=
    match runExecute Sql.insert_message
            [bind (msg_sender req); bind (msg_message req)] now st with
    | (inr _, st') =>
        (res_json success_true,
         [io_emit (newMessage (msg_sender req) (msg_message req) date)],
         st')
    | (inl _, st') => (res_json success_false, [], st')
    end.

End Server.

(* ================================================================== *)
(** ** The PostgreSQL-only variant of the server *)
(* ================================================================== *)

Module PostgresOnly.

Definition insert_user :=
    "INSERT INTO users(username,password,profile_pic,usb_key) VALUES($1,$2,$3,$4)".
Definition select_user :=
    "SELECT * FROM users WHERE username=$1 AND password=$2".
Definition select_messages :=
    "SELECT * FROM messages ORDER BY timestamp ASC".
Definition insert_message :=
    "INSERT INTO messages(sender,message) VALUES($1,$2)".

Section Server.

Context {Store : Type}.
Variable drv : Driver Store.

Definition runQuery (sql : string) (params : list sqlval) (now : Z) (st : Store)
      : (StoreError + list row) * Store :=
      then_ pg_rows (pool_query drv sql params now st).

Definition runExecute (sql : string) (params : list sqlval) (now : Z) (st : Store)
      : (StoreError + unit) * Store :=
      then_ (fun _ => tt) (pool_query drv sql params now st).

Definition post_register (req : RegisterBody) (now : Z) (st : Store)
      : Response * Store :=
      let profile_pic :=
        match reg_file req with
        | Some filename => "/uploads/" ++ filename
        | None => ""
        end in
      match runExecute insert_user
              [bind (reg_username req); bind (reg_password req);
               SqlText profile_pic; or_null (reg_usb_key req)] now st with
      | (inr _, st') => (res_json success_true, st')
      | (inl _, st') =>
          (res_status_json 400 (failure "Username exists or invalid data"), st')
      end.

Definition get_messages (now : Z) (st : Store) : Response * Store :=
      match runQuery select_messages [] now st with
      | (inr rows, st') => (res_json (JsArr (map row_json rows)), st')
      | (inl _, st') => (res_status_json 500 (JsArr []), st')
      end.

Definition post_login (req : LoginBody) (now : Z) (st : Store)
  : Response * Store :=
  match runQuery select_user
          [bind (login_username req); bind (login_password req)] now st with
  | (inr rows, st') =>
      match rows with
      | [] => (res_status_json 400 (failure "Invalid username/password"), st')
      | user :: _ =>
          if column_truthy "usb_key" user && negb (truthy (usb_present req))
          then (res_status_json 400 (failure "USB not inserted"), st')
          else (res_json (JsObj [("success", JsBool true); ("user", row_json user)]), st')
      end
  | (inl _, st') => (res_status_json 500 (failure "Server error"), st')
  end.

Definition post_message (req : MessageBody) (now date : Z) (st : Store)
  : Response * list Emit * Store :=
  match runExecute insert_message
          [bind (msg_sender req); bind (msg_message req)] now st with
  | (inr _, st') =>
      (res_json success_true,
       [io_emit (newMessage (msg_sender req) (msg_message req) date)],
       st')
  | (inl _, st') => (res_status_json 500 success_false, [], st')
  end.

End Server.

End PostgresOnly.

(* ================================================================== *)
(** ** Presence registry: the [onlineUsers] object *)
(* ================================================================== *)

(** Own properties in creation order.  Keys are property keys, that is
    the announced username converted to a string. *)
Definition JsObject := list (string * SocketId).

Fixpoint get_own (o : JsObject) (k : string) : option SocketId :=
  match o with
  | [] => None
  | (k', v) :: o' => if k' =? k then Some v else get_own o' k
  end.

(** Assigning an own property: an existing key keeps its place, a new
    one goes last. *)
Fixpoint assign (o : JsObject) (k : string) (v : SocketId) : JsObject :=
  match o with
  | [] => [(k, v)]
  | (k', v') :: o' =>
      if k' =? k then (k', v) :: o' else (k', v') :: assign o' k v
  end.

(** [o[k] = v] on an object created by [{}]: the key [__proto__] is the
    accessor inherited from [Object.prototype], whose setter ignores a
    string; every other key becomes an own property. *)
Definition set_prop (o : JsObject) (k : string) (v : SocketId) : JsObject :=
  if k =? "__proto__" then o else assign o k v.

(** [delete o[k]] *)
Definition delete_prop (o : JsObject) (k : string) : JsObject :=
  filter (fun kv => negb (fst kv =? k)) o.

Definition digit_of (c : ascii) : option N :=
  let n := N_of_ascii c in
  if ((48 <=? n) && (n <=? 57))%N then Some (n - 48)%N else None.

Fixpoint decimal (s : string) (acc : N) : option N :=
  match s with
  | EmptyString => Some acc
  | String c s' =>
      match digit_of c with
      | Some d => decimal s' (acc * 10 + d)%N
      | None => None
      end
  end.

(** An array index: the canonical decimal form of an integer below
    2^32 - 1. *)
Definition array_index (k : string) : option N :=
  match k with
  | EmptyString => None
  | String c rest =>
      if (c =? "0")%char
      then (if rest =? "" then Some 0%N else None)
      else match decimal k 0 with
           | Some n => if (n <? 4294967295)%N then Some n else None
           | None => None
           end
  end.

Fixpoint insert_index (p : N * string) (l : list (N * string)) : list (N * string) :=
  match l with
  | [] => [p]
  | q :: l' =>
      if (fst p <=? fst q)%N then p :: l else q :: insert_index p l'
  end.

Fixpoint index_keys (ks : list string) : list (N * string) :=
  match ks with
  | [] => []
  | k :: ks' =>
      match array_index k with
      | Some n => insert_index (n, k) (index_keys ks')
      | None => index_keys ks'
      end
  end.

Definition named_key (k : string) : bool :=
  match array_index k with
  | Some _ => false
  | None => true
  end.

(** [Object.keys(o)], also the order in which [for (u in o)] visits:
    array indices ascending, then the other keys in creation order. *)
Definition own_keys (o : JsObject) : list string :=
  (map snd (index_keys (map fst o)) ++ filter named_key (map fst o))%list.

(** [socket.on('userOnline', ...)] *)
Definition on_userOnline (socket : SocketId) (username : string)
    (onlineUsers : JsObject) : JsObject * list Emit :=
  if (List.length (own_keys onlineUsers) <? 4)%nat then
    let onlineUsers' := set_prop onlineUsers username socket in
    (onlineUsers', [io_emit (updateOnline (own_keys onlineUsers'))])
  else (onlineUsers, []).

(** [socket.on('userTyping', ...)] *)
Definition on_userTyping (socket : SocketId) (username : string)
    (onlineUsers : JsObject) : JsObject * list Emit :=
  (onlineUsers, [broadcast_emit socket (userTyping username)]).

(** The body of [for (let u in onlineUsers)], over the keys still to
    visit.  A key that is no longer present when its turn comes is
    skipped. *)
Fixpoint disconnect_loop (socket : SocketId) (keys : list string)
    (onlineUsers : JsObject) : JsObject * list Emit :=
  match keys with
  | [] => (onlineUsers, [])
  | u :: keys' =>
      match get_own onlineUsers u with
      | Some id =>
          if id =? socket then
            let onlineUsers' := delete_prop onlineUsers u in
            let (final, out) := disconnect_loop socket keys' onlineUsers' in
            (final, io_emit (updateOnline (own_keys onlineUsers')) :: out)
          else disconnect_loop socket keys' onlineUsers
      | None => disconnect_loop socket keys' onlineUsers
      end
  end.

(** [socket.on('disconnect', ...)] *)
Definition on_disconnect (socket : SocketId) (onlineUsers : JsObject)
    : JsObject * list Emit :=
  disconnect_loop socket (own_keys onlineUsers) onlineUsers.

(** Events a connection delivers to the server. *)
Inductive SocketEvent : Type :=
| UserOnline (socket : SocketId) (username : string)
| UserTyping (socket : SocketId) (username : string)
| Disconnect (socket : SocketId).

Definition socket_step (ev : SocketEvent) (onlineUsers : JsObject)
    : JsObject * list Emit :=
  match ev with
  | UserOnline s u => on_userOnline s u onlineUsers
  | UserTyping s u => on_userTyping s u onlineUsers
  | Disconnect s => on_disconnect s onlineUsers
  end.

(** The registry starts as [{}] and changes only through the three
    handlers. *)
Inductive reachable : JsObject -> Prop :=
| reachable_init : reachable []
| reachable_step ev o : reachable o -> reachable (fst (socket_step ev o)).

(** Running a sequence of events, collecting what is emitted. *)
Fixpoint socket_run (evs : list SocketEvent) (o : JsObject)
    : JsObject * list Emit :=
  match evs with
  | [] => (o, [])
  | ev :: evs' =>
      let (o1, out1) := socket_step ev o in
      let (o2, out2) := socket_run evs' o1 in
      (o2, (out1 ++ out2)%list)
  end.

(** Entries held by a connection. *)
Definition owned_by (socket : SocketId) (o : JsObject) : JsObject :=
  filter (fun kv => snd kv =? socket) o.

Definition not_owned_by (socket : SocketId) (o : JsObject) : JsObject :=
  filter (fun kv => negb (snd kv =? socket)) o.


(* ================================================================== *)
(** ** Placeholder translation, as the specification words it *)
(* ================================================================== *)

(** Written from the specification, not from the source: the k-th
    sequential [?] of a statement becomes the numbered [$k].  The server
    has no such function; this one says what the specification asks the
    PostgreSQL client to be handed. *)
Fixpoint spec_number_placeholders (k : nat) (sql : string) : string :=
  match sql with
  | EmptyString => EmptyString
  | String c rest =>
      if (c =? "?")%char
      then String "$" (NilEmpty.string_of_uint (Nat.to_uint k)
                       ++ spec_number_placeholders (S k) rest)
      else String c (spec_number_placeholders k rest)
  end.

Definition spec_translate_placeholders (sql : string) : string :=
  spec_number_placeholders 1 sql.

(* ================================================================== *)
(** ** Clock readings as the stores return them *)
(* ================================================================== *)

(** A clock reading is a number of milliseconds since 1970-01-01
    00:00:00 UTC, as [Date.now()] counts them.  SQLite's
    [CURRENT_TIMESTAMP] is the text [YYYY-MM-DD HH:MM:SS] of the reading,
    whole seconds; a PostgreSQL timestamp reaches the response as a
    [Date], which JSON writes as [YYYY-MM-DDTHH:MM:SS.mmmZ].  Years 0000
    to 9999, UTC throughout. *)
Definition digit (n : Z) : ascii := ascii_of_N (48 + Z.to_N (n mod 10)).

Definition two_digits (n : Z) : string :=
  String (digit (n / 10)) (String (digit n) EmptyString).

Definition three_digits (n : Z) : string := String (digit (n / 100)) (two_digits n).

Definition four_digits (n : Z) : string := String (digit (n / 1000)) (three_digits n).

(** Year, month and day of a day number counted from 1970-01-01, in the
    proleptic Gregorian calendar. *)
Definition civil_from_days (days : Z) : Z * Z * Z :=
  let z := (days + 719468)%Z in
  let era := (z / 146097)%Z in
  let doe := (z - era * 146097)%Z in
  let yoe := ((doe - doe / 1460 + doe / 36524 - doe / 146096) / 365)%Z in
  let doy := (doe - (365 * yoe + yoe / 4 - yoe / 100))%Z in
  let mp := ((5 * doy + 2) / 153)%Z in
  let d := (doy - (153 * mp + 2) / 5 + 1)%Z in
  let m := (if mp <? 10 then mp + 3 else mp - 9)%Z in
  let y := (yoe + era * 400 + (if m <=? 2 then 1 else 0))%Z in
  (y, m, d).

Definition date_text (ms : Z) : string :=
  let '(y, m, d) := civil_from_days (ms / 86400000) in
  four_digits y ++ "-" ++ two_digits m ++ "-" ++ two_digits d.

Definition time_text (ms : Z) : string :=
  let s := ((ms / 1000) mod 86400)%Z in
  two_digits (s / 3600) ++ ":" ++ two_digits ((s / 60) mod 60) ++ ":"
  ++ two_digits (s mod 60).

(** [CURRENT_TIMESTAMP] as SQLite stores and returns it. *)
Definition sqlite_datetime (ms : Z) : string :=
  date_text ms ++ " " ++ time_text ms.

(** [Date.prototype.toJSON] *)
Definition iso_datetime (ms : Z) : string :=
  date_text ms ++ "T" ++ time_text ms ++ "." ++ three_digits (ms mod 1000) ++ "Z".

(* ================================================================== *)
(** ** A model of the two engines over the schema of [createTables] *)
(* ================================================================== *)

(** The engines are outside the repository.  This model covers the four
    statements the handlers issue, over the two tables [createTables]
    declares: [users] with [username TEXT UNIQUE], [messages] with
    [timestamp ... DEFAULT CURRENT_TIMESTAMP], both with a generated
    [id].  SQLite reads the sequential [?] form, PostgreSQL the numbered
    [$k] form and rejects a stray [?].  A timestamp is held as the clock
    reading it stands for; each engine assigns and returns it in its own
    way. *)
Module Engine.

Record UserRow : Type := {
  user_id : Z;
  username : sqlval;
  password : sqlval;
  profile_pic : sqlval;
  usb_key : sqlval
}.

Record MessageRow : Type := {
  message_id : Z;
  sender : sqlval;
  message : sqlval;
  timestamp : Z
}.

Record Tables : Type := {
  users : list UserRow;
  messages : list MessageRow
}.

Definition empty : Tables := {| users := []; messages := [] |}.

Definition user_row (u : UserRow) : row :=
  [("id", SqlInt (user_id u)); ("username", username u);
   ("password", password u); ("profile_pic", profile_pic u);
   ("usb_key", usb_key u)].

(** A message row as the embedded store returns it. *)
Definition message_row (m : MessageRow) : row :=
  [("id", SqlInt (message_id m)); ("sender", sender m);
   ("message", message m);
   ("timestamp", SqlText (sqlite_datetime (timestamp m)))].

(** A message row as the networked store's client returns it and JSON
    writes it. *)
Definition pg_message_row (m : MessageRow) : row :=
  [("id", SqlInt (message_id m)); ("sender", sender m);
   ("message", message m);
   ("timestamp", SqlText (iso_datetime (timestamp m)))].

(** The timestamp an engine assigns at a clock reading: SQLite keeps
    whole seconds, PostgreSQL the reading. *)
Definition current_timestamp (engine : dbType) (now : Z) : Z :=
  match engine with
  | sqlite => (1000 * (now / 1000))%Z
  | postgres => now
  end.

(** SQL [a = b]: never true when a side is NULL. *)
Definition sql_equal (a b : sqlval) : bool :=
  match a, b with
  | SqlNull, _ | _, SqlNull => false
  | _, _ => sqlval_eqb a b
  end.

(** The generated key: one more than the largest in the table. *)
Definition next_id {A : Type} (id : A -> Z) (l : list A) : Z :=
  (fold_right (fun r m => Z.max (id r) m) 0 l + 1)%Z.

(** [ORDER BY timestamp ASC]: rows with equal timestamps keep the order
    of the table. *)
Fixpoint insert_by_timestamp (m : MessageRow) (l : list MessageRow) : list MessageRow :=
  match l with
  | [] => [m]
  | m' :: l' =>
      if (timestamp m <=? timestamp m')%Z then m :: l
      else m' :: insert_by_timestamp m l'
  end.

Fixpoint order_by_timestamp (l : list MessageRow) : list MessageRow :=
  match l with
  | [] => []
  | m :: l' => insert_by_timestamp m (order_by_timestamp l')
  end.

Inductive Stmt : Type := InsertUser | SelectUser | SelectMessages | InsertMessage.

(** What a statement yields: rows, generated key, rows changed. *)
Record Outcome : Type := { out_rows : list row; out_id : Z; out_changes : nat }.

Definition exec (engine : dbType) (s : Stmt) (params : list sqlval) (now : Z)
    (t : Tables) : (StoreError + Outcome) * Tables :=
  match s, params with
  | InsertUser, [u; p; pic; key] =>
      if existsb (fun r => sql_equal (username r) u) (users t)
      then (inl ErrConstraint, t)
      else
        let id := next_id user_id (users t) in
        (inr {| out_rows := []; out_id := id; out_changes := 1 |},
         {| users := (users t ++
                      [{| user_id := id; username := u; password := p;
                          profile_pic := pic; usb_key := key |}])%list;
            messages := messages t |})
  | SelectUser, [u; p] =>
      (inr {| out_rows :=
                map user_row
                  (filter (fun r => sql_equal (username r) u
                                    && sql_equal (password r) p) (users t));
              out_id := 0; out_changes := 0 |}, t)
  | SelectMessages, [] =>
      (inr {| out_rows :=
                map match engine with
                    | sqlite => message_row
                    | postgres => pg_message_row
                    end (order_by_timestamp (messages t));
              out_id := 0; out_changes := 0 |}, t)
  | InsertMessage, [s; m] =>
      let id := next_id message_id (messages t) in
      (inr {| out_rows := []; out_id := id; out_changes := 1 |},
       {| users := users t;
          messages := (messages t ++
                       [{| message_id := id; sender := s; message := m;
                           timestamp := current_timestamp engine now |}])%list |})
  | _, _ => (inl ErrBind, t)
  end.

(** Statements in the sequential [?] form. *)
Definition parse_sequential (sql : string) : option Stmt :=
  if sql =? Sql.insert_user then Some InsertUser
  else if sql =? Sql.select_user then Some SelectUser
  else if sql =? Sql.select_messages then Some SelectMessages
  else if sql =? Sql.insert_message then Some InsertMessage
  else None.

(** Statements in the numbered [$k] form. *)
Definition parse_numbered (sql : string) : option Stmt :=
  if sql =? PostgresOnly.insert_user then Some InsertUser
  else if sql =? PostgresOnly.select_user then Some SelectUser
  else if sql =? PostgresOnly.select_messages then Some SelectMessages
  else if sql =? PostgresOnly.insert_message then Some InsertMessage
  else None.

Definition run (engine : dbType) (parse : string -> option Stmt) (sql : string)
    (params : list sqlval) (now : Z) (t : Tables)
    : (StoreError + Outcome) * Tables :=
  match parse sql with
  | Some s => exec engine s params now t
  | None => (inl ErrSyntax, t)
  end.

Definition driver : Driver Tables := {|
  pool_query sql params now t :=
    then_ (fun o => {| pg_rows := out_rows o;
                       rowCount := out_changes o + List.length (out_rows o) |})
          (run postgres parse_numbered sql params now t);
  sqlite_all sql params now t :=
    then_ out_rows (run sqlite parse_sequential sql params now t);
  sqlite_run sql params now t :=
    then_ (fun o => {| lastID := out_id o; changes := out_changes o |})
          (run sqlite parse_sequential sql params now t)
|}.

End Engine.

(** A store that cannot be reached: every call rejects with [e]. *)
Definition failing (e : StoreError) : Driver unit := {|
  pool_query _ _ _ st := (inl e, st);
  sqlite_all _ _ _ st := (inl e, st);
  sqlite_run _ _ _ st := (inl e, st)
|}.

(** A driver that only records the statement text it is handed. *)
Definition recording : Driver (list string) := {|
  pool_query sql _ _ log := (inr {| pg_rows := []; rowCount := 0 |}, (log ++ [sql])%list);
  sqlite_all sql _ _ log := (inr [], (log ++ [sql])%list);
  sqlite_run sql _ _ log := (inr {| lastID := 0; changes := 0 |}, (log ++ [sql])%list)
|}.

(** A JavaScript object holds a key at most once. *)
Definition unique_keys (o : JsObject) : Prop := NoDup (map fst o).

(** [k] is among the keys [ks]. *)
Definition mem (k : string) (ks : list string) : bool :=
  existsb (String.eqb k) ks.

Definition is_updateOnline (e : Emit) : bool :=
  match e with
  | io_emit (updateOnline _) => true
  | _ => false
  end.


(** The row an insert of [m] at clock reading [clock] stores. *)
Definition stored_message (id : Z) (m : MessageBody) (clock : Z)
    : Engine.MessageRow :=
  {| Engine.message_id := id;
     Engine.sender := bind (msg_sender m);
     Engine.message := bind (msg_message m);
     Engine.timestamp := clock |}.

(** The body of a history response listing [ms] in that order. *)
Definition history (ms : list Engine.MessageRow) : json :=
  JsArr (map (fun m => row_json (Engine.message_row m)) ms).

(** One connection announcing the usernames [us], one after the other. *)
Definition announce_all (socket : SocketId) (us : list string) (o : JsObject)
    : JsObject * list Emit :=
  socket_run (map (UserOnline socket) us) o.

(** Two rows are in ascending timestamp order. *)
Definition by_timestamp (a b : Engine.MessageRow) : Prop :=
  (Engine.timestamp a <= Engine.timestamp b)%Z.

(** ** Sample requests and stores *)

Definition alice : RegisterBody :=
  {| reg_username := Some "alice"; reg_password := Some "pw";
     reg_usb_key := Some "k1"; reg_file := None |}.

Definition alice_login (indicator : jsval) : LoginBody :=
  {| login_username := Some "alice"; login_password := Some "pw";
     usb_present := indicator |}.

Definition alice_stored : Engine.UserRow :=
  {| Engine.user_id := 1; Engine.username := SqlText "alice";
     Engine.password := SqlText "pw"; Engine.profile_pic := SqlText "";
     Engine.usb_key := SqlText "k1" |}.

Definition alice_registered : Engine.Tables :=
  {| Engine.users := [alice_stored]; Engine.messages := [] |}.

Definition hello : MessageBody :=
  {| msg_sender := Some "alice"; msg_message := Some "hello" |}.

Definition M1 : MessageBody := {| msg_sender := Some "alice"; msg_message := Some "M1" |}.
Definition M2 : MessageBody := {| msg_sender := Some "bob"; msg_message := Some "M2" |}.
Definition M3 : MessageBody := {| msg_sender := Some "alice"; msg_message := Some "M3" |}.

(* ================================================================== *)
(** ** The SQLite-only script *)
(* ================================================================== *)

(** The older script kept in the same file: it talks to [sqlite3]
    directly, answers failures with an error status, and leaves the
    disconnect loop at the first entry it removes. *)
Module SqliteOnly.

Section Server.

Context {Store : Type}.
Variable drv : Driver Store.

(** [db.get(sql, params, cb)]: the first row of the result, or
    [undefined]. *)
Definition db_get (sql : string) (params : list sqlval) (now : Z) (st : Store)
  : (StoreError + option row) * Store :=
  then_ (@hd_error row) (sqlite_all drv sql params now st).

Definition post_register (req : RegisterBody) (now : Z) (st : Store)
  : Response * Store :=
  let profile_pic :=
    match reg_file req with
    | Some filename => "/uploads/" ++ filename
    | None => ""
    end in
  match sqlite_run drv Sql.insert_user
          [bind (reg_username req); bind (reg_password req);
           SqlText profile_pic; or_null (reg_usb_key req)] now st with
  | (inl _, st') => (res_status_json 400 (failure "Username already exists"), st')
  | (inr _, st') => (res_json success_true, st')
  end.

Definition post_login (req : LoginBody) (now : Z) (st : Store)
  : Response * Store :=
  match db_get Sql.select_user
          [bind (login_username req); bind (login_password req)] now st with
  | (inl _, st') => (res_status_json 500 (failure "Server error"), st')
  | (inr None, st') =>
      (res_status_json 400 (failure "Invalid username/password"), st')
  | (inr (Some user), st') =>
      if column_truthy "usb_key" user && negb (truthy (usb_present req))
      then (res_status_json 400 (failure "USB not inserted"), st')
      else (res_json (JsObj [("success", JsBool true); ("user", row_json user)]), st')
  end.

Definition get_messages (now : Z) (st : Store) : Response * Store :=
  match sqlite_all drv Sql.select_messages [] now st with
  | (inl _, st') => (res_status_json 500 (failure "Server error"), st')
  | (inr rows, st') => (res_json (JsArr (map row_json rows)), st')
  end.

Definition post_message (req : MessageBody) (now date : Z) (st : Store)
  : Response * list Emit * Store :=
  match sqlite_run drv Sql.insert_message
          [bind (msg_sender req); bind (msg_message req)] now st with
  | (inl _, st') => (res_status_json 500 (failure "Server error"), [], st')
  | (inr _, st') =>
      (res_json success_true,
       [io_emit (newMessage (msg_sender req) (msg_message req) date)],
       st')
  end.

End Server.

(** The loop of the disconnect handler, which ends with [break] at the
    first entry it deletes. *)
Fixpoint disconnect_loop (socket : SocketId) (keys : list string)
    (onlineUsers : JsObject) : JsObject * list Emit :=
  match keys with
  | [] => (onlineUsers, [])
  | u :: keys' =>
      match get_own onlineUsers u with
      | Some id =>
          if id =? socket then
            let onlineUsers' := delete_prop onlineUsers u in
            (onlineUsers', [io_emit (updateOnline (own_keys onlineUsers'))])
          else disconnect_loop socket keys' onlineUsers
      | None => disconnect_loop socket keys' onlineUsers
      end
  end.

Definition on_disconnect (socket : SocketId) (onlineUsers : JsObject)
    : JsObject * list Emit :=
  disconnect_loop socket (own_keys onlineUsers) onlineUsers.

End SqliteOnly.

(* ================================================================== *)
(** ** The routes as one server *)
(* ================================================================== *)

(** The four routes that reach the store.  [date] is what [new Date()]
    reads when a posted message is broadcast. *)
Inductive Request : Type :=
| PostRegister (req : RegisterBody)
| PostLogin (req : LoginBody)
| GetMessages
| PostMessage (req : MessageBody) (date : Z).

Definition serve {Store : Type} (drv : Driver Store) (db : dbType)
    (r : Request) (now : Z) (st : Store) : Response * list Emit * Store :=
  match r with
  | PostRegister req =>
      let (resp, st') := post_register drv db req now st in (resp, [], st')
  | PostLogin req =>
      let (resp, st') := post_login drv db req now st in (resp, [], st')
  | GetMessages =>
      let (resp, st') := get_messages drv db now st in (resp, [], st')
  | PostMessage req date => post_message drv db req now date st
  end.

(** Requests served one after the other, each with the store's clock
    reading at its call. *)
Fixpoint serve_all {Store : Type} (drv : Driver Store) (db : dbType)
    (rs : list (Request * Z)) (st : Store)
    : list Response * list Emit * Store :=
  match rs with
  | [] => ([], [], st)
  | (r, now) :: rs' =>
      let '(resp, out, st1) := serve drv db r now st in
      let '(resps, outs, st2) := serve_all drv db rs' st1 in
      (resp :: resps, (out ++ outs)%list, st2)
  end.

Definition is_newMessage (e : Emit) : bool :=
  match e with
  | io_emit (newMessage _ _ _) => true
  | _ => false
  end.

Definition is_typing (ev : SocketEvent) : bool :=
  match ev with
  | UserTyping _ _ => true
  | _ => false
  end.

(** The usernames the [users] table holds, NULLs apart. *)
Definition usernames (us : list Engine.UserRow) : list string :=
  flat_map (fun r => match Engine.username r with
                     | SqlText s => [s]
                     | _ => []
                     end) us.

(** [username = ? AND password = ?] on a stored row. *)
Definition credentials_match (u p : sqlval) (r : Engine.UserRow) : bool :=
  Engine.sql_equal (Engine.username r) u && Engine.sql_equal (Engine.password r) p.

(** The reply is a success object. *)
Definition succeeded (r : Response) : bool :=
  match json_get "success" (body r) with
  | Some (JsBool true) => true
  | _ => false
  end.

(** The sender and body a broadcast event carries, as the store would
    hold them. *)
Definition emitted_message (e : Emit) : sqlval * sqlval :=
  match e with
  | io_emit (newMessage s m _) => (bind s, bind m)
  | _ => (SqlNull, SqlNull)
  end.

(** The row a successful registration stores. *)
Definition stored_user (id : Z) (req : RegisterBody) : Engine.UserRow :=
  {| Engine.user_id := id;
     Engine.username := bind (reg_username req);
     Engine.password := bind (reg_password req);
     Engine.profile_pic :=
       SqlText match reg_file req with
               | Some filename => "/uploads/" ++ filename
               | None => ""
               end;
     Engine.usb_key := or_null (reg_usb_key req) |}.

(** A request that writes to the store when it succeeds. *)
Definition writes (r : Request) : bool :=
  match r with
  | PostRegister _ | PostMessage _ _ => true
  | PostLogin _ | GetMessages => false
  end.

(** The keys of the two tables are unique: no username twice (NULLs
    apart), no generated id twice. *)
Definition keys_unique (t : Engine.Tables) : Prop :=
  NoDup (usernames (Engine.users t)) /\
  NoDup (map Engine.user_id (Engine.users t)) /\
  NoDup (map Engine.message_id (Engine.messages t)).

(** What the register handler can have written in a row: a USB key that
    is NULL or a non-empty text, a picture path that is empty or under
    [/uploads/]. *)
Definition registered_shape (r : Engine.UserRow) : Prop :=
  (Engine.usb_key r = SqlNull \/
   exists k, Engine.usb_key r = SqlText k /\ k <> "") /\
  (Engine.profile_pic r = SqlText "" \/
   exists filename, Engine.profile_pic r = SqlText ("/uploads/" ++ filename)).

(** What a text field of a request reads as in a response once it went
    through the store: the string itself, [null] when it was absent. *)
Definition json_of_field (f : field) : json :=
  match f with
  | Some s => JsStr s
  | None => JsNull
  end.

(** Posts made one after the other against the embedded store while the
    store's clock runs forward: each post comes [delay] milliseconds,
    possibly none, after the one before, the first one after [clock]. *)
Fixpoint post_after (clock : Z) (posts : list (N * MessageBody))
    (t : Engine.Tables) : Engine.Tables :=
  match posts with
  | [] => t
  | (delay, m) :: posts' =>
      let now := (clock + Z.of_N delay)%Z in
      post_after now posts' (snd (post_message Engine.driver sqlite m now now t))
  end.

(** A message with characters that need care in SQL and in JSON. *)
Definition tricky : MessageBody :=
  {| msg_sender := Some "o'brien";
     msg_message := Some "it's <b>100%</b> \ {ok}; DROP TABLE messages;--" |}.

(* ================================================================== *)
(** * Properties *)
(* ================================================================== *)

(** ** Objects: keys, assignment, deletion *)

Lemma insert_index_perm p l : Permutation (insert_index p l) (p :: l).
Proof.
  induction l as [|q l IH]; simpl.
  - apply Permutation_refl.
  - destruct (fst p <=? fst q)%N.
    + apply Permutation_refl.
    + eapply perm_trans; [apply perm_skip, IH | apply perm_swap].
Qed.

Lemma index_keys_perm ks :
  Permutation (map snd (index_keys ks)) (filter (fun k => negb (named_key k)) ks).
Proof.
  induction ks as [|k ks IH]; simpl.
  - constructor.
  - unfold named_key. destruct (array_index k) as [n|]; simpl.
    + eapply perm_trans.
      * apply Permutation_map, insert_index_perm.
      * simpl. now apply perm_skip.
    + exact IH.
Qed.

Lemma filter_split_perm {A} (f : A -> bool) l :
  Permutation (filter (fun a => negb (f a)) l ++ filter f l)%list l.
Proof.
  induction l as [|a l IH]; simpl.
  - constructor.
  - destruct (f a); simpl.
    + apply Permutation_sym, Permutation_cons_app, Permutation_sym, IH.
    + now apply perm_skip.
Qed.

Lemma own_keys_perm o : Permutation (own_keys o) (map fst o).
Proof.
  unfold own_keys.
  eapply perm_trans; [| apply (filter_split_perm named_key)].
  apply Permutation_app_tail, index_keys_perm.
Qed.

Lemma own_keys_length o : List.length (own_keys o) = List.length o.
Proof.
  rewrite (Permutation_length (own_keys_perm o)). apply length_map.
Qed.

Lemma own_keys_In o k : In k (own_keys o) <-> In k (map fst o).
Proof.
  split; apply Permutation_in;
    [apply own_keys_perm | apply Permutation_sym, own_keys_perm].
Qed.

Lemma get_own_In o k v : get_own o k = Some v -> In (k, v) o.
Proof.
  induction o as [|[k' v'] o IH]; simpl; [discriminate|].
  destruct (k' =? k) eqn:E.
  - apply String.eqb_eq in E. intros [= ->]. left. now subst.
  - intros H. right. now apply IH.
Qed.

Lemma get_own_None o k : get_own o k = None -> ~ In k (map fst o).
Proof.
  induction o as [|[k' v'] o IH]; simpl; [tauto|].
  destruct (k' =? k) eqn:E; [discriminate|].
  apply String.eqb_neq in E. intros H [F|F]; [contradiction | now apply IH].
Qed.

Lemma In_get_own o k v : unique_keys o -> In (k, v) o -> get_own o k = Some v.
Proof.
  unfold unique_keys.
  induction o as [|[k' v'] o IH]; simpl; [tauto|].
  intros Hnd [H|H].
  - injection H as -> ->. now rewrite String.eqb_refl.
  - inversion Hnd as [|? ? Hnot Hnd']; subst.
    destruct (k' =? k) eqn:E.
    + apply String.eqb_eq in E. subst. exfalso. apply Hnot.
      change k with (fst (k, v)). now apply in_map.
    + now apply IH.
Qed.

Lemma unique_keys_filter f o : unique_keys o -> unique_keys (filter f o).
Proof.
  unfold unique_keys.
  induction o as [|kv o IH]; simpl; [trivial|].
  intros Hnd. inversion Hnd as [|? ? Hnot Hnd']; subst.
  destruct (f kv); simpl; [|now apply IH].
  constructor; [|now apply IH].
  intros Hin. apply Hnot. apply in_map_iff in Hin as [x [Hx Hin]].
  apply filter_In in Hin as [Hin _]. rewrite <- Hx. now apply in_map.
Qed.

Lemma assign_keys o k v :
  map fst (assign o k v) =
  match get_own o k with
  | Some _ => map fst o
  | None => (map fst o ++ [k])%list
  end.
Proof.
  induction o as [|[k' v'] o IH]; simpl; [reflexivity|].
  destruct (k' =? k) eqn:E; simpl; [reflexivity|].
  rewrite IH. now destruct (get_own o k).
Qed.

Lemma unique_keys_assign o k v : unique_keys o -> unique_keys (assign o k v).
Proof.
  unfold unique_keys. intros Hnd. rewrite assign_keys.
  destruct (get_own o k) eqn:E; [exact Hnd|].
  apply get_own_None in E.
  apply (Permutation_NoDup (l := k :: map fst o)).
  - apply Permutation_cons_append.
  - now constructor.
Qed.

Lemma assign_length o k v :
  List.length (assign o k v) <= S (List.length o).
Proof.
  rewrite <- (length_map fst), assign_keys.
  destruct (get_own o k); rewrite ?length_app, length_map; simpl; lia.
Qed.

Lemma get_own_assign o k v k' :
  get_own (assign o k v) k' = if k =? k' then Some v else get_own o k'.
Proof.
  induction o as [|[k0 v0] o IH]; simpl.
  - reflexivity.
  - destruct (k0 =? k) eqn:E; simpl.
    + apply String.eqb_eq in E. subst. now destruct (k =? k').
    + rewrite IH. destruct (k =? k') eqn:E'; [|reflexivity].
      apply String.eqb_eq in E'. subst. now rewrite E.
Qed.

Lemma delete_prop_length o u id :
  unique_keys o -> get_own o u = Some id ->
  S (List.length (delete_prop o u)) = List.length o.
Proof.
  unfold unique_keys, delete_prop.
  induction o as [|[k v] o IH]; simpl; [discriminate|].
  intros Hnd. inversion Hnd as [|? ? Hnot Hnd']; subst.
  destruct (k =? u) eqn:E; simpl.
  - intros _. apply String.eqb_eq in E. subst. f_equal.
    f_equal. symmetry. rewrite <- (filter_ext_in (fun _ => true)).
    + clear. induction o; simpl; congruence.
    + intros [k' v'] Hin. simpl. symmetry. apply negb_true_iff, String.eqb_neq.
      intros ->. apply Hnot. change u with (fst (u, v')). now apply in_map.
  - intros H. f_equal. now apply IH.
Qed.

(** ** The disconnect loop *)

Lemma disconnect_loop_registry s ks o :
  unique_keys o ->
  fst (disconnect_loop s ks o) =
  filter (fun kv => negb (mem (fst kv) ks && (snd kv =? s))) o.
Proof.
  revert o. induction ks as [|u ks IH]; intros o Hu; simpl.
  - induction o as [|kv o IHo]; simpl; [reflexivity|].
    f_equal. apply IHo. unfold unique_keys in *. simpl in Hu.
    now inversion Hu.
  - destruct (get_own o u) as [id|] eqn:G.
    + destruct (id =? s) eqn:E.
      * destruct (disconnect_loop s ks (delete_prop o u)) as [final out] eqn:L.
        simpl. change final with (fst (final, out)). rewrite <- L.
        rewrite IH by now apply unique_keys_filter.
        apply String.eqb_eq in E. subst id.
        unfold delete_prop. clear IH L.
        assert (Huniq : forall k v, In (k, v) o -> k = u -> v = s).
        { intros k v Hin ->. apply (In_get_own _ _ _ Hu) in Hin. congruence. }
        clear G Hu. induction o as [|[k v] o IHo]; simpl; [reflexivity|].
        destruct (k =? u) eqn:Ek; simpl.
        -- apply String.eqb_eq in Ek.
           rewrite (Huniq k v (or_introl eq_refl) Ek), String.eqb_refl.
           simpl. apply IHo. intros; eapply Huniq; eauto. now right.
        -- rewrite IHo by (intros; eapply Huniq; eauto; now right).
           reflexivity.
      * rewrite IH by assumption. apply filter_ext_in. intros [k v] Hin. simpl.
        destruct (k =? u) eqn:Ek; [|reflexivity]. simpl.
        apply String.eqb_eq in Ek. subst k.
        apply (In_get_own _ _ _ Hu) in Hin. rewrite G in Hin.
        injection Hin as ->. rewrite E. now rewrite andb_false_r.
    + rewrite IH by assumption. apply filter_ext_in. intros [k v] Hin. simpl.
      destruct (k =? u) eqn:Ek; [|reflexivity].
      apply String.eqb_eq in Ek. subst k. exfalso.
      apply (get_own_None _ _ G). change u with (fst (u, v)). now apply in_map.
Qed.

Lemma mem_own_keys o kv : In kv o -> mem (fst kv) (own_keys o) = true.
Proof.
  intros Hin. unfold mem. apply existsb_exists. exists (fst kv). split.
  - apply own_keys_In. now apply in_map.
  - apply String.eqb_refl.
Qed.

Lemma on_disconnect_registry s o :
  unique_keys o -> fst (on_disconnect s o) = not_owned_by s o.
Proof.
  intros Hu. unfold on_disconnect, not_owned_by.
  rewrite disconnect_loop_registry by assumption.
  apply filter_ext_in. intros kv Hin. now rewrite mem_own_keys.
Qed.

(** Every emission of the loop removes exactly one entry. *)
Lemma disconnect_loop_count s ks o :
  unique_keys o ->
  (List.length (snd (disconnect_loop s ks o))
   + List.length (fst (disconnect_loop s ks o)))%nat = List.length o.
Proof.
  revert o. induction ks as [|u ks IH]; intros o Hu; simpl; [reflexivity|].
  destruct (get_own o u) as [id|] eqn:G; [|now apply IH].
  destruct (id =? s); [|now apply IH].
  destruct (disconnect_loop s ks (delete_prop o u)) as [final out] eqn:L.
  simpl. rewrite <- (delete_prop_length o u id Hu G).
  rewrite <- (IH (delete_prop o u)) by now apply unique_keys_filter.
  rewrite L. simpl. lia.
Qed.

Lemma disconnect_loop_silent s ks o :
  snd (disconnect_loop s ks o) = [] -> fst (disconnect_loop s ks o) = o.
Proof.
  revert o. induction ks as [|u ks IH]; intros o; simpl; [reflexivity|].
  destruct (get_own o u) as [id|]; [|apply IH].
  destruct (id =? s); [|apply IH].
  destruct (disconnect_loop s ks (delete_prop o u)). simpl. discriminate.
Qed.

Lemma disconnect_loop_events s ks o :
  forallb is_updateOnline (snd (disconnect_loop s ks o)) = true.
Proof.
  revert o. induction ks as [|u ks IH]; intros o; simpl; [reflexivity|].
  destruct (get_own o u) as [id|]; [|apply IH].
  destruct (id =? s); [|apply IH].
  specialize (IH (delete_prop o u)).
  destruct (disconnect_loop s ks (delete_prop o u)). simpl. exact IH.
Qed.

(** The last list the loop broadcasts is the key list it ends with. *)
Lemma disconnect_loop_last s ks o :
  snd (disconnect_loop s ks o) <> [] ->
  exists earlier,
    snd (disconnect_loop s ks o) =
    (earlier ++ [io_emit (updateOnline (own_keys (fst (disconnect_loop s ks o))))])%list.
Proof.
  revert o. induction ks as [|u ks IH]; intros o; simpl; [congruence|].
  destruct (get_own o u) as [id|]; [|apply IH].
  destruct (id =? s); [|apply IH].
  specialize (IH (delete_prop o u)).
  pose proof (disconnect_loop_silent s ks (delete_prop o u)) as Hs.
  destruct (disconnect_loop s ks (delete_prop o u)) as [final out].
  simpl in *. intros _. destruct out as [|e out].
  - exists []. simpl. now rewrite Hs.
  - destruct IH as [earlier Heq]; [discriminate|].
    exists (io_emit (updateOnline (own_keys (delete_prop o u))) :: earlier).
    simpl. now rewrite Heq.
Qed.

Lemma owned_split s o :
  (List.length (owned_by s o) + List.length (not_owned_by s o))%nat = List.length o.
Proof.
  unfold owned_by, not_owned_by.
  induction o as [|[k v] o IH]; simpl; [reflexivity|].
  destruct (v =? s); simpl; lia.
Qed.

Lemma on_disconnect_count s o :
  unique_keys o ->
  List.length (snd (on_disconnect s o)) = List.length (owned_by s o).
Proof.
  intros Hu.
  pose proof (disconnect_loop_count s (own_keys o) o Hu) as Hc.
  fold (on_disconnect s o) in Hc.
  rewrite on_disconnect_registry in Hc by assumption.
  pose proof (owned_split s o). lia.
Qed.

Lemma not_owned_all s o : owned_by s o = [] -> not_owned_by s o = o.
Proof.
  unfold owned_by, not_owned_by.
  induction o as [|[k v] o IH]; simpl; [reflexivity|].
  destruct (v =? s); simpl; [discriminate|].
  intros H. now rewrite IH.
Qed.

(** ** Invariants of the registry *)

Lemma set_prop_unique o k v : unique_keys o -> unique_keys (set_prop o k v).
Proof.
  intros Hu. unfold set_prop. destruct (k =? "__proto__"); [exact Hu|].
  now apply unique_keys_assign.
Qed.

Lemma set_prop_length o k v : List.length (set_prop o k v) <= S (List.length o).
Proof.
  unfold set_prop. destruct (k =? "__proto__"); [lia | apply assign_length].
Qed.

Lemma filter_length_le {A} (f : A -> bool) l :
  List.length (filter f l) <= List.length l.
Proof.
  induction l as [|a l IH]; simpl; [lia|]. destruct (f a); simpl; lia.
Qed.

Lemma socket_step_unique ev o :
  unique_keys o -> unique_keys (fst (socket_step ev o)).
Proof.
  intros Hu. destruct ev as [s u|s u|s]; simpl.
  - unfold on_userOnline. destruct (_ <? 4)%nat; simpl; [|exact Hu].
    now apply set_prop_unique.
  - exact Hu.
  - rewrite on_disconnect_registry by assumption.
    now apply unique_keys_filter.
Qed.

Lemma socket_step_capacity ev o :
  unique_keys o -> List.length o <= 4 ->
  List.length (fst (socket_step ev o)) <= 4.
Proof.
  intros Hu Hc. destruct ev as [s u|s u|s]; simpl.
  - unfold on_userOnline. rewrite own_keys_length.
    destruct (List.length o <? 4)%nat eqn:E; simpl; [|exact Hc].
    apply Nat.ltb_lt in E. pose proof (set_prop_length o u s). lia.
  - exact Hc.
  - rewrite on_disconnect_registry by assumption.
    unfold not_owned_by.
    eapply Nat.le_trans; [apply filter_length_le | exact Hc].
Qed.

Lemma reachable_invariant o :
  reachable o -> unique_keys o /\ List.length o <= 4.
Proof.
  induction 1 as [|ev o _ [Hu Hc]].
  - split; [constructor | simpl; lia].
  - split; [now apply socket_step_unique | now apply socket_step_capacity].
Qed.

(** C2.  In every state the registry can reach it holds at most four
    entries, and an announcement that finds four entries changes nothing
    and emits nothing: no broadcast, and nothing to the announcing
    connection either. *)
Theorem presence_capacity o :
  reachable o ->
  List.length o <= 4 /\
  (forall socket username,
      List.length o = 4 -> on_userOnline socket username o = (o, [])).
Proof.
  intros Hr. split.
  - now apply reachable_invariant.
  - intros socket username H4. unfold on_userOnline.
    now rewrite own_keys_length, H4.
Qed.

Lemma presence_capacity_witness :
  List.length [("ann", "s1"); ("bob", "s2"); ("cy", "s3"); ("dee", "s4")] <= 4 /\
  (forall socket username,
      List.length [("ann", "s1"); ("bob", "s2"); ("cy", "s3"); ("dee", "s4")] = 4 ->
      on_userOnline socket username
        [("ann", "s1"); ("bob", "s2"); ("cy", "s3"); ("dee", "s4")]
      = ([("ann", "s1"); ("bob", "s2"); ("cy", "s3"); ("dee", "s4")], [])).
Proof.
  apply (presence_capacity [("ann", "s1"); ("bob", "s2"); ("cy", "s3"); ("dee", "s4")]).
  exact (reachable_step (UserOnline "s4" "dee") _
          (reachable_step (UserOnline "s3" "cy") _
            (reachable_step (UserOnline "s2" "bob") _
              (reachable_step (UserOnline "s1" "ann") _ reachable_init)))).
Defined.

(** C8.  On a disconnect the registry loses exactly the entries whose
    connection identity is the disconnecting one.  If there is such an
    entry the handler broadcasts, and the last list it broadcasts is the
    key list of the registry it leaves; if there is none the registry is
    unchanged and nothing is emitted. *)
Theorem disconnect_presence socket o :
  reachable o ->
  fst (on_disconnect socket o) = not_owned_by socket o /\
  (owned_by socket o <> [] ->
   exists earlier,
     snd (on_disconnect socket o) =
     (earlier ++ [io_emit (updateOnline (own_keys (not_owned_by socket o)))])%list) /\
  (owned_by socket o = [] -> on_disconnect socket o = (o, [])).
Proof.
  intros Hr. destruct (reachable_invariant o Hr) as [Hu _].
  pose proof (on_disconnect_registry socket o Hu) as Hreg.
  pose proof (on_disconnect_count socket o Hu) as Hcount.
  split; [exact Hreg|]. split.
  - intros Hne. rewrite <- Hreg. apply disconnect_loop_last.
    fold (on_disconnect socket o). intros Hnil. rewrite Hnil in Hcount.
    destruct (owned_by socket o); [congruence | discriminate].
  - intros Hnone. rewrite Hnone in Hcount.
    destruct (on_disconnect socket o) as [final out]. simpl in *.
    destruct out; [|discriminate].
    now rewrite Hreg, not_owned_all.
Qed.

Lemma disconnect_presence_witness :
  fst (on_disconnect "s1" [("ann", "s1"); ("bob", "s2")])
  = not_owned_by "s1" [("ann", "s1"); ("bob", "s2")] /\
  (owned_by "s1" [("ann", "s1"); ("bob", "s2")] <> [] ->
   exists earlier,
     snd (on_disconnect "s1" [("ann", "s1"); ("bob", "s2")]) =
     (earlier ++ [io_emit (updateOnline
                    (own_keys (not_owned_by "s1" [("ann", "s1"); ("bob", "s2")])))])%list) /\
  (owned_by "s1" [("ann", "s1"); ("bob", "s2")] = [] ->
   on_disconnect "s1" [("ann", "s1"); ("bob", "s2")]
   = ([("ann", "s1"); ("bob", "s2")], [])).
Proof.
  apply (disconnect_presence "s1" [("ann", "s1"); ("bob", "s2")]).
  exact (reachable_step (UserOnline "s2" "bob") _
          (reachable_step (UserOnline "s1" "ann") _ reachable_init)).
Defined.

(** ** The data access layer *)

Lemma parse_sequential_insert_user :
  Engine.parse_sequential Sql.insert_user = Some Engine.InsertUser.
Proof. reflexivity. Qed.

Lemma parse_sequential_select_messages :
  Engine.parse_sequential Sql.select_messages = Some Engine.SelectMessages.
Proof. reflexivity. Qed.

Lemma parse_sequential_insert_message :
  Engine.parse_sequential Sql.insert_message = Some Engine.InsertMessage.
Proof. reflexivity. Qed.

(** C1.  The layer hands the statement text to the active client as the
    caller wrote it, on either backend.  For the register statement the
    numbered form the specification asks for is the one the
    PostgreSQL-only server writes out, and it is not what [runExecute]
    hands to [pool.query]: the same registration that succeeds on the
    embedded store is rejected by the networked one. *)
Theorem postgres_is_handed_sequential_placeholders :
  (forall sql params now log,
      snd (runExecute recording postgres sql params now log) = (log ++ [sql])%list /\
      snd (runQuery recording postgres sql params now log) = (log ++ [sql])%list) /\
  spec_translate_placeholders Sql.insert_user = PostgresOnly.insert_user /\
  Sql.insert_user <> spec_translate_placeholders Sql.insert_user /\
  fst (post_register Engine.driver sqlite alice 0 Engine.empty)
  = res_json success_true /\
  fst (post_register Engine.driver postgres alice 0 Engine.empty)
  = res_json (failure "Username exists").
Proof.
  split; [|split; [|split; [|split]]].
  - intros sql params now log. split; reflexivity.
  - reflexivity.
  - discriminate.
  - reflexivity.
  - reflexivity.
Qed.

(** ** Request handlers, over any driver *)

Section Handlers.

Context {Store : Type}.
Variable drv : Driver Store.
Variable db : dbType.

Lemma row_json_get c user :
  json_get c (row_json user) = option_map sql_json (row_get c user).
Proof.
  unfold row_json. simpl.
  induction user as [|[k v] user IH]; simpl; [reflexivity|].
  destruct (k =? c); [reflexivity | exact IH].
Qed.

(** C5.  When the lookup returns a row whose [usb_key] is non-empty and
    the caller's indicator is falsy, the answer is the USB-required
    failure and not the invalid-login one.  The indicator is looked at
    only once a row has matched: with no matching row the answer is the
    invalid-login failure whatever the indicator. *)
Theorem login_second_factor req now st rows st' :
  runQuery drv db Sql.select_user
    [bind (login_username req); bind (login_password req)] now st
  = (inr rows, st') ->
  (rows = [] ->
   post_login drv db req now st = (res_json (failure "Invalid login"), st')) /\
  (forall user rest,
      rows = user :: rest ->
      column_truthy "usb_key" user = true ->
      truthy (usb_present req) = false ->
      post_login drv db req now st = (res_json (failure "USB required"), st') /\
      fst (post_login drv db req now st) <> res_json (failure "Invalid login")).
Proof.
  intros Hq. unfold post_login. rewrite Hq. split.
  - intros ->. reflexivity.
  - intros user rest -> Hkey Hind. rewrite Hkey, Hind. simpl.
    split; [reflexivity | discriminate].
Qed.

(** A post whose insert is rejected emits nothing. *)
Lemma post_message_rejected_is_silent req now date st e st' :
  runExecute drv db Sql.insert_message
    [bind (msg_sender req); bind (msg_message req)] now st = (inl e, st') ->
  post_message drv db req now date st = (res_json success_false, [], st').
Proof. intros H. unfold post_message. now rewrite H. Qed.

(** Every handler catches a rejected store call and still answers. *)
Lemma register_rejected req now st e st' :
  runExecute drv db Sql.insert_user
    [bind (reg_username req); bind (reg_password req);
     SqlText match reg_file req with
             | Some filename => "/uploads/" ++ filename
             | None => ""
             end;
     or_null (reg_usb_key req)] now st = (inl e, st') ->
  post_register drv db req now st = (res_json (failure "Username exists"), st').
Proof. intros H. unfold post_register. now rewrite H. Qed.

Lemma login_rejected req now st e st' :
  runQuery drv db Sql.select_user
    [bind (login_username req); bind (login_password req)] now st
  = (inl e, st') ->
  post_login drv db req now st = (res_json success_false, st').
Proof. intros H. unfold post_login. now rewrite H. Qed.

Lemma get_messages_rejected now st e st' :
  runQuery drv db Sql.select_messages [] now st = (inl e, st') ->
  get_messages drv db now st = (res_json (JsArr []), st').
Proof. intros H. unfold get_messages. now rewrite H. Qed.

Lemma get_messages_resolved now st rows st' :
  runQuery drv db Sql.select_messages [] now st = (inr rows, st') ->
  get_messages drv db now st = (res_json (JsArr (map row_json rows)), st').
Proof. intros H. unfold get_messages. now rewrite H. Qed.

End Handlers.

Lemma login_second_factor_witness :
  post_login Engine.driver sqlite (alice_login (JBool false)) 0 alice_registered
  = (res_json (failure "USB required"), alice_registered) /\
  fst (post_login Engine.driver sqlite (alice_login (JBool false)) 0 alice_registered)
  <> res_json (failure "Invalid login").
Proof.
  apply (proj2 (login_second_factor Engine.driver sqlite
                  (alice_login (JBool false)) 0%Z alice_registered
                  [Engine.user_row alice_stored] alice_registered eq_refl)
               (Engine.user_row alice_stored) [] eq_refl);
    reflexivity.
Defined.

(** ** Register *)

(** The claim that a store failure other than a duplicate username gets
    a failure of its own does not hold: a store that cannot be reached
    is answered exactly as a duplicate username is. *)
Lemma register_unreachable_store_reads_username_exists :
  fst (post_register (failing ErrConnection) sqlite alice 0 tt)
  = res_json (failure "Username exists") /\
  fst (post_register (failing ErrConnection) sqlite alice 0 tt)
  = fst (post_register (failing ErrConstraint) sqlite alice 0 tt).
Proof. split; reflexivity. Qed.

Lemma existsb_last {A} (f : A -> bool) l a :
  f a = true -> existsb f (l ++ [a])%list = true.
Proof.
  intros H. rewrite existsb_app. simpl. rewrite H.
  now rewrite orb_true_r.
Qed.

(** C4, amended.  The register handler has one failure answer: whatever
    makes the store reject the insert, the unique constraint or anything
    else, the response is [{success:false, message:"Username exists"}],
    and a resolved insert is answered [{success:true}]; the
    PostgreSQL-only server likewise has the single failure answer
    "Username exists or invalid data", with status 400.  On the embedded
    store, registering a username no row holds succeeds, and registering
    that username again is rejected by the unique constraint, answered
    with that failure, and leaves the table as it was. *)
Theorem register_single_failure_answer :
  (forall (Store : Type) (drv : Driver Store) db req now st,
      match fst (runExecute drv db Sql.insert_user
                   [bind (reg_username req); bind (reg_password req);
                    SqlText match reg_file req with
                            | Some filename => "/uploads/" ++ filename
                            | None => ""
                            end;
                    or_null (reg_usb_key req)] now st) with
      | inr _ => fst (post_register drv db req now st) = res_json success_true
      | inl _ => fst (post_register drv db req now st)
                 = res_json (failure "Username exists")
      end) /\
  (forall (Store : Type) (drv : Driver Store) req now st,
      match fst (PostgresOnly.runExecute drv PostgresOnly.insert_user
                   [bind (reg_username req); bind (reg_password req);
                    SqlText match reg_file req with
                            | Some filename => "/uploads/" ++ filename
                            | None => ""
                            end;
                    or_null (reg_usb_key req)] now st) with
      | inr _ => fst (PostgresOnly.post_register drv req now st)
                 = res_json success_true
      | inl _ => fst (PostgresOnly.post_register drv req now st)
                 = res_status_json 400 (failure "Username exists or invalid data")
      end) /\
  (forall t first second u now now',
      reg_username first = Some u ->
      reg_username second = Some u ->
      existsb (fun r => Engine.sql_equal (Engine.username r) (SqlText u))
        (Engine.users t) = false ->
      exists t',
        post_register Engine.driver sqlite first now t
        = (res_json success_true, t') /\
        post_register Engine.driver sqlite second now' t'
        = (res_json (failure "Username exists"), t') /\
        fst (sqlite_run Engine.driver Sql.insert_user
               [bind (reg_username second); bind (reg_password second);
                SqlText match reg_file second with
                        | Some filename => "/uploads/" ++ filename
                        | None => ""
                        end;
                or_null (reg_usb_key second)] now' t') = inl ErrConstraint).
Proof.
  split; [|split].
  - intros Store drv db req now st. unfold post_register.
    destruct (runExecute drv db Sql.insert_user _ now st) as [[e|r] st'];
      reflexivity.
  - intros Store drv req now st. unfold PostgresOnly.post_register.
    destruct (PostgresOnly.runExecute drv PostgresOnly.insert_user _ now st)
      as [[e|r] st']; reflexivity.
  - intros t first second u now now' Hfirst Hsecond Hfresh.
    unfold post_register, runExecute. cbn [Engine.driver sqlite_run].
    unfold Engine.run. rewrite parse_sequential_insert_user.
    cbn [Engine.exec]. rewrite Hfirst, Hsecond. cbn [bind].
    rewrite Hfresh. cbn [then_ fst snd].
    eexists. split; [reflexivity|].
    cbn [Engine.users].
    rewrite existsb_last; [split; reflexivity|].
    cbn [Engine.username Engine.sql_equal sqlval_eqb].
    apply String.eqb_refl.
Qed.

Lemma register_single_failure_answer_witness :
  exists t',
    post_register Engine.driver sqlite alice 0 Engine.empty
    = (res_json success_true, t') /\
    post_register Engine.driver sqlite alice 1 t'
    = (res_json (failure "Username exists"), t') /\
    fst (sqlite_run Engine.driver Sql.insert_user
           [bind (reg_username alice); bind (reg_password alice);
            SqlText match reg_file alice with
                    | Some filename => "/uploads/" ++ filename
                    | None => ""
                    end;
            or_null (reg_usb_key alice)] 1 t') = inl ErrConstraint.
Proof.
  apply (proj2 (proj2 register_single_failure_answer) Engine.empty alice alice
           "alice" 0%Z 1%Z); reflexivity.
Defined.

(** ** History *)

(** C6.  When the store rejects the history query, the handler answers
    status 200 with an empty array, which is also its answer for a store
    that holds no message: the failure cannot be told from a success.
    The PostgreSQL-only server answers the same failure with status
    500. *)
Theorem get_messages_failure_reads_as_empty_history :
  (forall e db,
      fst (get_messages (failing e) db 0 tt) = res_json (JsArr [])) /\
  fst (get_messages Engine.driver sqlite 0 Engine.empty) = res_json (JsArr []) /\
  (forall e,
      fst (PostgresOnly.get_messages (failing e) 0 tt)
      = res_status_json 500 (JsArr [])).
Proof.
  split; [|split].
  - intros e []; reflexivity.
  - reflexivity.
  - intros e. reflexivity.
Qed.

(** *** Ordering of the history *)

Lemma insert_by_timestamp_perm m l :
  Permutation (Engine.insert_by_timestamp m l) (m :: l).
Proof.
  induction l as [|m' l IH]; simpl.
  - apply Permutation_refl.
  - destruct (Engine.timestamp m <=? Engine.timestamp m')%Z.
    + apply Permutation_refl.
    + eapply perm_trans; [apply perm_skip, IH | apply perm_swap].
Qed.

Lemma order_by_timestamp_perm l : Permutation (Engine.order_by_timestamp l) l.
Proof.
  induction l as [|m l IH]; simpl.
  - constructor.
  - eapply perm_trans; [apply insert_by_timestamp_perm | now apply perm_skip].
Qed.

Lemma insert_by_timestamp_sorted m l :
  StronglySorted by_timestamp l ->
  StronglySorted by_timestamp (Engine.insert_by_timestamp m l).
Proof.
  induction 1 as [|m' l Hs IH Hall]; simpl.
  - repeat constructor.
  - destruct (Engine.timestamp m <=? Engine.timestamp m')%Z eqn:E.
    + apply Z.leb_le in E. constructor; [now constructor|].
      constructor; [exact E|].
      eapply Forall_impl; [|exact Hall].
      intros x Hx. unfold by_timestamp in *. lia.
    + apply Z.leb_gt in E. constructor; [exact IH|].
      apply (Permutation_Forall (Permutation_sym (insert_by_timestamp_perm m l))).
      constructor; [unfold by_timestamp; lia | exact Hall].
Qed.

Lemma order_by_timestamp_sorted l :
  StronglySorted by_timestamp (Engine.order_by_timestamp l).
Proof.
  induction l as [|m l IH]; simpl.
  - constructor.
  - now apply insert_by_timestamp_sorted.
Qed.


Lemma get_messages_embedded now t :
  get_messages Engine.driver sqlite now t
  = (res_json (history (Engine.order_by_timestamp (Engine.messages t))), t).
Proof.
  unfold get_messages, runQuery. cbn [Engine.driver sqlite_all].
  unfold Engine.run. rewrite parse_sequential_select_messages.
  cbn. unfold history. now rewrite map_map.
Qed.

Lemma post_message_embedded m now date t :
  post_message Engine.driver sqlite m now date t
  = (res_json success_true,
     [io_emit (newMessage (msg_sender m) (msg_message m) date)],
     {| Engine.users := Engine.users t;
        Engine.messages :=
          (Engine.messages t
           ++ [stored_message (Engine.next_id Engine.message_id (Engine.messages t))
                 m (Engine.current_timestamp sqlite now)])%list |}).
Proof.
  unfold post_message, runExecute. cbn [Engine.driver sqlite_run].
  unfold Engine.run. rewrite parse_sequential_insert_message. reflexivity.
Qed.


(** ** Slots per announced username *)

Lemma get_own_set_prop o k v k' :
  get_own (set_prop o k v) k' =
  if (k =? k') && negb (k =? "__proto__") then Some v else get_own o k'.
Proof.
  unfold set_prop. destruct (k =? "__proto__"); simpl.
  - now rewrite andb_false_r.
  - rewrite andb_true_r. apply get_own_assign.
Qed.

Lemma announce_all_registry s us : forall o,
  List.length o + List.length us <= 4 ->
  fst (announce_all s us o) = fold_left (fun o u => set_prop o u s) us o.
Proof.
  unfold announce_all.
  induction us as [|u us IH]; intros o Hroom; simpl; [reflexivity|].
  unfold on_userOnline. rewrite own_keys_length.
  simpl in Hroom.
  destruct (List.length o <? 4)%nat eqn:E;
    [|apply Nat.ltb_ge in E; lia].
  specialize (IH (set_prop o u s)).
  destruct (socket_run (map (UserOnline s) us) (set_prop o u s)) as [o2 out2].
  simpl in *. apply IH. pose proof (set_prop_length o u s). lia.
Qed.

Lemma get_own_announced s us : forall o k,
  ~ In "__proto__" us ->
  get_own (fold_left (fun o u => set_prop o u s) us o) k =
  if mem k us then Some s else get_own o k.
Proof.
  induction us as [|u us IH]; intros o k Hp; simpl; [reflexivity|].
  rewrite IH by (intros H; apply Hp; now right).
  rewrite get_own_set_prop.
  assert (Hu : (u =? "__proto__") = false).
  { apply String.eqb_neq. intros ->. apply Hp. now left. }
  rewrite Hu, andb_true_r, (String.eqb_sym k u).
  destruct (mem k us) eqn:Em; [now rewrite orb_true_r|].
  now rewrite orb_false_r.
Qed.

Lemma fold_set_prop_unique s us : forall o,
  unique_keys o -> unique_keys (fold_left (fun o u => set_prop o u s) us o).
Proof.
  induction us as [|u us IH]; intros o Hu; simpl; [exact Hu|].
  apply IH. now apply set_prop_unique.
Qed.

Lemma mem_In k ks : mem k ks = true <-> In k ks.
Proof.
  unfold mem. rewrite existsb_exists. split.
  - intros [x [Hin E]]. apply String.eqb_eq in E. now subst.
  - intros Hin. exists k. split; [exact Hin | apply String.eqb_refl].
Qed.

Lemma owned_by_In s o k : In (k, s) o <-> In (k, s) (owned_by s o).
Proof.
  unfold owned_by. rewrite filter_In. simpl. rewrite String.eqb_refl. tauto.
Qed.

(** Capacity is counted per announced username.  A connection that
    announces distinct usernames, none of them the reserved key, while
    there is room for all of them, holds one entry per username, and its
    disconnect removes every entry it holds with one [updateOnline] per
    removed entry. *)
Lemma presence_slots_per_username s us o :
  unique_keys o -> NoDup us -> ~ In "__proto__" us ->
  List.length o + List.length us <= 4 ->
  (forall u, In u us -> get_own (fst (announce_all s us o)) u = Some s) /\
  List.length us <= List.length (owned_by s (fst (announce_all s us o))) /\
  (owned_by s o = [] ->
   List.length (owned_by s (fst (announce_all s us o))) = List.length us) /\
  fst (on_disconnect s (fst (announce_all s us o)))
  = not_owned_by s (fst (announce_all s us o)) /\
  List.length (snd (on_disconnect s (fst (announce_all s us o))))
  = List.length (owned_by s (fst (announce_all s us o))) /\
  forallb is_updateOnline (snd (on_disconnect s (fst (announce_all s us o)))) = true.
Proof.
  intros Hu Hnd Hp Hroom.
  rewrite announce_all_registry by assumption.
  set (o' := fold_left (fun o u => set_prop o u s) us o).
  assert (Hu' : unique_keys o') by now apply fold_set_prop_unique.
  assert (Hget : forall k, get_own o' k = if mem k us then Some s else get_own o k)
    by (intros k; now apply get_own_announced).
  assert (Hheld : forall u, In u us -> get_own o' u = Some s).
  { intros u Hin. rewrite Hget. apply mem_In in Hin. now rewrite Hin. }
  assert (Hincl : incl us (map fst (owned_by s o'))).
  { intros u Hin. apply Hheld, get_own_In, owned_by_In in Hin.
    change u with (fst (u, s)). now apply in_map. }
  split; [exact Hheld|]. split; [|split; [|split; [|split]]].
  - rewrite <- (length_map fst (owned_by s o')).
    now apply NoDup_incl_length.
  - intros Hnone. apply Nat.le_antisymm.
    + rewrite <- (length_map fst (owned_by s o')).
      apply NoDup_incl_length; [now apply unique_keys_filter|].
      intros k Hin. apply in_map_iff in Hin as [[k' v] [Hk Hin]].
      simpl in Hk. subst k'.
      unfold owned_by in Hin. apply filter_In in Hin as [Hin Hv].
      simpl in Hv. apply String.eqb_eq in Hv. subst v.
      apply (In_get_own _ _ _ Hu') in Hin. rewrite Hget in Hin.
      destruct (mem k us) eqn:Em; [now apply mem_In|].
      apply get_own_In, owned_by_In in Hin. rewrite Hnone in Hin. contradiction.
    + rewrite <- (length_map fst (owned_by s o')).
      now apply NoDup_incl_length.
  - now apply on_disconnect_registry.
  - now apply on_disconnect_count.
  - apply disconnect_loop_events.
Qed.

(** C10.  The username [__proto__] is announced like any other, and the
    list is broadcast, but it takes no slot: a connection that announces
    the two distinct usernames [ann] and [__proto__] into an empty
    registry holds one entry, not two. *)
Theorem proto_announcement_takes_no_slot :
  (forall socket o,
      on_userOnline socket "__proto__" o
      = (o, if (List.length (own_keys o) <? 4)%nat
            then [io_emit (updateOnline (own_keys o))] else [])) /\
  announce_all "s1" ["ann"; "__proto__"] []
  = ([("ann", "s1")],
     [io_emit (updateOnline ["ann"]); io_emit (updateOnline ["ann"])]) /\
  List.length (owned_by "s1" (fst (announce_all "s1" ["ann"; "__proto__"] []))) = 1.
Proof.
  split; [|split; reflexivity].
  intros socket o. unfold on_userOnline.
  now destruct (List.length (own_keys o) <? 4)%nat.
Qed.

(* ================================================================== *)
(** * Further properties of the presence registry *)
(* ================================================================== *)

Lemma own_keys_NoDup o : unique_keys o -> NoDup (own_keys o).
Proof.
  intros Hu. eapply Permutation_NoDup; [|exact Hu].
  apply Permutation_sym, own_keys_perm.
Qed.

Lemma own_keys_same_keys o o' : map fst o = map fst o' -> own_keys o = own_keys o'.
Proof. intros H. unfold own_keys. now rewrite H. Qed.

Lemma assign_fresh o k v : get_own o k = None -> assign o k v = (o ++ [(k, v)])%list.
Proof.
  induction o as [|[k' v'] o IH]; simpl; [reflexivity|].
  destruct (k' =? k); [discriminate|]. intros H. now rewrite IH.
Qed.

Lemma set_prop_no_proto o k v :
  ~ In "__proto__" (map fst o) -> ~ In "__proto__" (map fst (set_prop o k v)).
Proof.
  intros Hp. unfold set_prop. destruct (k =? "__proto__") eqn:E; [exact Hp|].
  apply String.eqb_neq in E. rewrite assign_keys.
  destruct (get_own o k); [exact Hp|].
  rewrite in_app_iff. simpl. intros [H|[H|[]]]; [now apply Hp | congruence].
Qed.

Lemma filter_keys_incl (f : string * SocketId -> bool) o k :
  In k (map fst (filter f o)) -> In k (map fst o).
Proof.
  intros H. apply in_map_iff in H as [kv [Hk Hin]].
  apply filter_In in Hin as [Hin _]. rewrite <- Hk. now apply in_map.
Qed.

Lemma reachable_no_proto o : reachable o -> ~ In "__proto__" (map fst o).
Proof.
  induction 1 as [|ev o Hr IH]; [simpl; tauto|].
  destruct (reachable_invariant o Hr) as [Hu _].
  destruct ev as [s u|s u|s]; simpl.
  - unfold on_userOnline. destruct (_ <? 4)%nat; simpl; [|exact IH].
    now apply set_prop_no_proto.
  - exact IH.
  - rewrite on_disconnect_registry by assumption.
    intros H. apply IH. eapply filter_keys_incl. exact H.
Qed.

Lemma held_key_is_ordinary o u s :
  reachable o -> get_own o u = Some s -> (u =? "__proto__") = false.
Proof.
  intros Hr Hg. apply String.eqb_neq. intros ->.
  apply (reachable_no_proto o Hr). apply get_own_In in Hg.
  change "__proto__" with (fst ("__proto__", s)). now apply in_map.
Qed.

(** X1.  A username that is already registered can be announced again by
    another connection while there is room: the entry passes to the new
    connection, the registry keeps its keys and their order, the list
    that is broadcast is the one before, and the former holder's
    disconnect no longer removes the entry. *)
Theorem announce_takes_over o u s1 s2 :
  reachable o -> List.length o < 4 -> get_own o u = Some s1 ->
  get_own (fst (on_userOnline s2 u o)) u = Some s2 /\
  map fst (fst (on_userOnline s2 u o)) = map fst o /\
  (forall k, k <> u -> get_own (fst (on_userOnline s2 u o)) k = get_own o k) /\
  snd (on_userOnline s2 u o) = [io_emit (updateOnline (own_keys o))] /\
  (s1 <> s2 -> In (u, s2) (fst (on_disconnect s1 (fst (on_userOnline s2 u o))))).
Proof.
  intros Hr Hroom Hheld.
  destruct (reachable_invariant o Hr) as [Hu _].
  pose proof (held_key_is_ordinary o u s1 Hr Hheld) as Hord.
  unfold on_userOnline. rewrite own_keys_length.
  apply Nat.ltb_lt in Hroom. rewrite Hroom. cbn [fst snd].
  unfold set_prop. rewrite Hord.
  assert (Hkeys : map fst (assign o u s2) = map fst o)
    by (rewrite assign_keys; now rewrite Hheld).
  assert (Hget : get_own (assign o u s2) u = Some s2)
    by (rewrite get_own_assign; now rewrite String.eqb_refl).
  split; [exact Hget|]. split; [exact Hkeys|]. split; [|split].
  - intros k Hk. rewrite get_own_assign.
    destruct (u =? k) eqn:E; [|reflexivity].
    apply String.eqb_eq in E. congruence.
  - now rewrite (own_keys_same_keys _ _ Hkeys).
  - intros Hne. rewrite on_disconnect_registry by now apply unique_keys_assign.
    unfold not_owned_by. apply filter_In. split; [now apply get_own_In|].
    simpl. apply negb_true_iff, String.eqb_neq. congruence.
Qed.

Lemma announce_takes_over_witness :
  get_own (fst (on_userOnline "s2" "ann" [("ann", "s1")])) "ann" = Some "s2" /\
  map fst (fst (on_userOnline "s2" "ann" [("ann", "s1")])) = map fst [("ann", "s1")] /\
  (forall k, k <> "ann" ->
             get_own (fst (on_userOnline "s2" "ann" [("ann", "s1")])) k
             = get_own [("ann", "s1")] k) /\
  snd (on_userOnline "s2" "ann" [("ann", "s1")])
  = [io_emit (updateOnline (own_keys [("ann", "s1")]))] /\
  ("s1" <> "s2" ->
   In ("ann", "s2")
      (fst (on_disconnect "s1" (fst (on_userOnline "s2" "ann" [("ann", "s1")]))))).
Proof.
  apply (announce_takes_over [("ann", "s1")] "ann" "s1" "s2").
  - exact (reachable_step (UserOnline "s1" "ann") _ reachable_init).
  - simpl. lia.
  - reflexivity.
Defined.

Lemma on_disconnect_single s o o' :
  unique_keys o -> not_owned_by s o = o' -> List.length (owned_by s o) = 1 ->
  on_disconnect s o = (o', [io_emit (updateOnline (own_keys o'))]).
Proof.
  intros Hu Hreg Hone.
  pose proof (on_disconnect_registry s o Hu) as Hfinal.
  pose proof (on_disconnect_count s o Hu) as Hcount.
  pose proof (disconnect_loop_last s (own_keys o) o) as Hlast.
  fold (on_disconnect s o) in Hlast.
  destruct (on_disconnect s o) as [final out]. simpl in *.
  rewrite Hone in Hcount. subst final. rewrite Hreg in *.
  destruct Hlast as [earlier Heq]; [now destruct out|].
  rewrite Heq in Hcount. rewrite length_app in Hcount. simpl in Hcount.
  destruct earlier; [now rewrite Heq | simpl in Hcount; lia].
Qed.

Lemma owned_by_app s a b :
  owned_by s (a ++ b)%list = (owned_by s a ++ owned_by s b)%list.
Proof. apply filter_app. Qed.

Lemma not_owned_by_app s a b :
  not_owned_by s (a ++ b)%list = (not_owned_by s a ++ not_owned_by s b)%list.
Proof. apply filter_app. Qed.

(** X2.  Announcing a username nobody holds and then disconnecting
    brings the registry back to what it was, entry for entry: the
    announcement appends the entry and broadcasts the longer list, the
    disconnect removes it and broadcasts the former list once. *)
Theorem announce_then_disconnect o u s :
  reachable o -> List.length o < 4 -> get_own o u = None ->
  u <> "__proto__" -> owned_by s o = [] ->
  on_userOnline s u o
  = ((o ++ [(u, s)])%list, [io_emit (updateOnline (own_keys (o ++ [(u, s)])%list))]) /\
  on_disconnect s (o ++ [(u, s)])%list = (o, [io_emit (updateOnline (own_keys o))]).
Proof.
  intros Hr Hroom Hfree Hord Hnone.
  destruct (reachable_invariant o Hr) as [Hu _].
  apply String.eqb_neq in Hord. split.
  - unfold on_userOnline. rewrite own_keys_length.
    apply Nat.ltb_lt in Hroom. rewrite Hroom.
    unfold set_prop. rewrite Hord. now rewrite assign_fresh.
  - apply on_disconnect_single.
    + rewrite <- (assign_fresh o u s Hfree). now apply unique_keys_assign.
    + rewrite not_owned_by_app, (not_owned_all s o Hnone).
      unfold not_owned_by. simpl. rewrite String.eqb_refl. simpl.
      apply app_nil_r.
    + rewrite owned_by_app, Hnone. unfold owned_by. simpl.
      now rewrite String.eqb_refl.
Qed.

Lemma announce_then_disconnect_witness :
  on_userOnline "s2" "bob" [("ann", "s1")]
  = (([("ann", "s1")] ++ [("bob", "s2")])%list,
     [io_emit (updateOnline (own_keys ([("ann", "s1")] ++ [("bob", "s2")])%list))]) /\
  on_disconnect "s2" ([("ann", "s1")] ++ [("bob", "s2")])%list
  = ([("ann", "s1")], [io_emit (updateOnline (own_keys [("ann", "s1")]))]).
Proof.
  apply (announce_then_disconnect [("ann", "s1")] "bob" "s2").
  - exact (reachable_step (UserOnline "s1" "ann") _ reachable_init).
  - simpl. lia.
  - reflexivity.
  - discriminate.
  - reflexivity.
Defined.

Lemma owned_by_not_owned s o : owned_by s (not_owned_by s o) = [].
Proof.
  unfold owned_by, not_owned_by.
  induction o as [|[k v] o IH]; simpl; [reflexivity|].
  destruct (v =? s) eqn:E; simpl; [exact IH|]. now rewrite E.
Qed.

(** X3.  A second disconnect of the same connection finds nothing to
    remove: it leaves the registry as the first one left it and emits
    nothing. *)
Theorem disconnect_twice socket o :
  reachable o ->
  on_disconnect socket (fst (on_disconnect socket o))
  = (fst (on_disconnect socket o), []).
Proof.
  intros Hr. destruct (reachable_invariant o Hr) as [Hu _].
  rewrite on_disconnect_registry by assumption.
  assert (Hu' : unique_keys (not_owned_by socket o)) by now apply unique_keys_filter.
  pose proof (on_disconnect_registry socket _ Hu') as Hreg.
  pose proof (on_disconnect_count socket _ Hu') as Hcount.
  rewrite owned_by_not_owned in Hcount.
  destruct (on_disconnect socket (not_owned_by socket o)) as [final out].
  simpl in *. destruct out; [|discriminate].
  rewrite Hreg. f_equal. apply not_owned_all, owned_by_not_owned.
Qed.

Lemma disconnect_twice_witness :
  on_disconnect "s1" (fst (on_disconnect "s1" [("ann", "s1"); ("bob", "s2")]))
  = (fst (on_disconnect "s1" [("ann", "s1"); ("bob", "s2")]), []).
Proof.
  apply (disconnect_twice "s1" [("ann", "s1"); ("bob", "s2")]).
  exact (reachable_step (UserOnline "s2" "bob") _
          (reachable_step (UserOnline "s1" "ann") _ reachable_init)).
Defined.

Lemma disconnect_loop_payloads s ks : forall o users,
  unique_keys o ->
  In (io_emit (updateOnline users)) (snd (disconnect_loop s ks o)) ->
  NoDup users /\ List.length users < List.length o.
Proof.
  induction ks as [|u ks IH]; intros o users Hu; simpl; [tauto|].
  destruct (get_own o u) as [id|] eqn:G; [|now apply IH].
  destruct (id =? s); [|now apply IH].
  assert (Hu' : unique_keys (delete_prop o u)) by now apply unique_keys_filter.
  pose proof (delete_prop_length o u id Hu G) as Hlen.
  specialize (IH (delete_prop o u) users Hu').
  destruct (disconnect_loop s ks (delete_prop o u)) as [final out].
  simpl in *. intros [Hhead|Htail].
  - injection Hhead as <-. split; [now apply own_keys_NoDup|].
    rewrite own_keys_length. lia.
  - destruct (IH Htail) as [Hnd Hlt]. split; [exact Hnd | lia].
Qed.

(** X4.  Every online list the server broadcasts, on an announcement or
    on a disconnect, names no user twice and at most four users. *)
Theorem presence_broadcasts_are_well_formed o ev users :
  reachable o ->
  In (io_emit (updateOnline users)) (snd (socket_step ev o)) ->
  NoDup users /\ List.length users <= 4.
Proof.
  intros Hr. destruct (reachable_invariant o Hr) as [Hu Hc].
  destruct ev as [s u|s u|s]; simpl.
  - pose proof (reachable_invariant _ (reachable_step (UserOnline s u) o Hr))
      as [Hu' Hc'].
    simpl in Hu', Hc'. unfold on_userOnline in *.
    destruct (_ <? 4)%nat; simpl in *; [|tauto].
    intros [Hhead|[]]. injection Hhead as <-.
    split; [now apply own_keys_NoDup | now rewrite own_keys_length].
  - intros [Hhead|[]]. discriminate.
  - intros Hin. destruct (disconnect_loop_payloads s _ o users Hu Hin).
    split; [assumption | lia].
Qed.

Lemma presence_broadcasts_are_well_formed_witness :
  NoDup ["9"; "ann"; "bob"] /\ List.length ["9"; "ann"; "bob"] <= 4.
Proof.
  apply (presence_broadcasts_are_well_formed
           [("ann", "s1"); ("bob", "s2")] (UserOnline "s3" "9")).
  - exact (reachable_step (UserOnline "s2" "bob") _
            (reachable_step (UserOnline "s1" "ann") _ reachable_init)).
  - left. reflexivity.
Defined.

Lemma filter_all_true {A} (f : A -> bool) l :
  forallb f l = true -> filter f l = l.
Proof.
  induction l as [|a l IH]; simpl; [reflexivity|].
  destruct (f a); simpl; [|discriminate]. intros H. now rewrite IH.
Qed.

Lemma socket_step_presence_only ev o :
  is_typing ev = false -> forallb is_updateOnline (snd (socket_step ev o)) = true.
Proof.
  destruct ev as [s u|s u|s]; simpl; [|discriminate|].
  - intros _. unfold on_userOnline. now destruct (_ <? 4)%nat.
  - intros _. apply disconnect_loop_events.
Qed.

(** X5.  Typing signals play no part in presence.  A typing signal is
    passed on to every other connection whether or not its sender ever
    announced itself, and dropping all typing signals from a run changes
    neither the registry the run ends in nor the online lists it
    broadcasts. *)
Theorem typing_is_independent_of_presence :
  (forall socket username o,
      on_userTyping socket username o
      = (o, [broadcast_emit socket (userTyping username)])) /\
  (forall evs o,
      fst (socket_run evs o)
      = fst (socket_run (filter (fun ev => negb (is_typing ev)) evs) o) /\
      filter is_updateOnline (snd (socket_run evs o))
      = snd (socket_run (filter (fun ev => negb (is_typing ev)) evs) o)).
Proof.
  split; [reflexivity|].
  induction evs as [|ev evs IH]; intros o; [split; reflexivity|].
  cbn [socket_run filter].
  destruct (is_typing ev) eqn:Et; cbn [negb].
  - destruct ev as [s u|s u|s]; try discriminate. cbn [socket_step on_userTyping].
    destruct (IH o) as [Hreg Hout].
    destruct (socket_run evs o) as [o2 out2]. simpl in *. now split.
  - cbn [socket_run].
    pose proof (socket_step_presence_only ev o Et) as Hev.
    destruct (socket_step ev o) as [o1 out1]. cbn [snd] in Hev.
    destruct (IH o1) as [Hreg Hout].
    destruct (socket_run evs o1) as [o2 out2].
    destruct (socket_run (filter (fun ev0 => negb (is_typing ev0)) evs) o1)
      as [o3 out3].
    simpl in *. split; [exact Hreg|].
    rewrite filter_app, (filter_all_true _ _ Hev). now rewrite Hout.
Qed.

(** *** The SQLite-only script: disconnect stops at the first entry *)

Lemma filter_comm {A} (f g : A -> bool) l :
  filter f (filter g l) = filter g (filter f l).
Proof.
  induction l as [|a l IH]; simpl; [reflexivity|].
  destruct (f a) eqn:Ef, (g a) eqn:Eg; simpl; rewrite ?Ef, ?Eg, IH; reflexivity.
Qed.

Lemma filter_absorb {A} (f g : A -> bool) l :
  (forall a, In a l -> f a = true -> g a = true) ->
  filter f (filter g l) = filter f l.
Proof.
  induction l as [|a l IH]; simpl; [reflexivity|]. intros H.
  assert (IH' : filter f (filter g l) = filter f l)
    by (apply IH; intros; apply H; auto).
  destruct (g a) eqn:Eg; simpl.
  - now rewrite IH'.
  - destruct (f a) eqn:Ef; [|exact IH'].
    rewrite (H a (or_introl eq_refl) Ef) in Eg. discriminate.
Qed.

Lemma delete_held_entry s o u :
  unique_keys o -> get_own o u = Some s ->
  not_owned_by s (delete_prop o u) = not_owned_by s o /\
  S (List.length (owned_by s (delete_prop o u))) = List.length (owned_by s o).
Proof.
  intros Hu Hg. split.
  - unfold not_owned_by, delete_prop. apply filter_absorb.
    intros [k v] Hin Hv. simpl in *.
    apply negb_true_iff, String.eqb_neq. intros ->.
    apply (In_get_own _ _ _ Hu) in Hin. rewrite Hg in Hin.
    injection Hin as <-. rewrite String.eqb_refl in Hv. discriminate.
  - unfold owned_by at 1. unfold delete_prop. rewrite filter_comm.
    apply (delete_prop_length (owned_by s o) u s).
    + now apply unique_keys_filter.
    + apply In_get_own; [now apply unique_keys_filter|].
      apply (proj1 (owned_by_In s o u)). now apply get_own_In.
Qed.

Lemma sqlite_only_loop s ks : forall o,
  (forall u, In u ks -> get_own o u <> Some s) /\
  SqliteOnly.disconnect_loop s ks o = (o, [])
  \/
  exists u, In u ks /\ get_own o u = Some s /\
            SqliteOnly.disconnect_loop s ks o
            = (delete_prop o u, [io_emit (updateOnline (own_keys (delete_prop o u)))]).
Proof.
  induction ks as [|u ks IH]; intros o; simpl.
  - left. split; [tauto | reflexivity].
  - destruct (get_own o u) as [id|] eqn:G.
    + destruct (id =? s) eqn:E.
      * apply String.eqb_eq in E. subst id. right. exists u. auto.
      * apply String.eqb_neq in E.
        destruct (IH o) as [[Hno Heq]|[u' [Hin [Hg Heq]]]].
        -- left. split; [|exact Heq]. intros k [<-|Hk]; [congruence | now apply Hno].
        -- right. exists u'. auto.
    + destruct (IH o) as [[Hno Heq]|[u' [Hin [Hg Heq]]]].
      * left. split; [|exact Heq]. intros k [<-|Hk]; [congruence | now apply Hno].
      * right. exists u'. auto.
Qed.

(** X6.  In the SQLite-only script a disconnect removes one entry at
    most.  A connection that holds several entries keeps all but one of
    them after it is gone, one list is broadcast, and the entries of the
    other connections are not touched; a connection that holds none
    changes and emits nothing. *)
Theorem sqlite_only_disconnect_removes_one s o :
  unique_keys o ->
  not_owned_by s (fst (SqliteOnly.on_disconnect s o)) = not_owned_by s o /\
  (owned_by s o = [] -> SqliteOnly.on_disconnect s o = (o, [])) /\
  (owned_by s o <> [] ->
   S (List.length (owned_by s (fst (SqliteOnly.on_disconnect s o))))
   = List.length (owned_by s o) /\
   snd (SqliteOnly.on_disconnect s o)
   = [io_emit (updateOnline (own_keys (fst (SqliteOnly.on_disconnect s o))))]).
Proof.
  intros Hu. unfold SqliteOnly.on_disconnect.
  destruct (sqlite_only_loop s (own_keys o) o) as [[Hno Heq]|[u [Hin [Hg Heq]]]];
    rewrite Heq; cbn [fst snd].
  - assert (Hnone : owned_by s o = []).
    { destruct (owned_by s o) as [|[k v] rest] eqn:E; [reflexivity|].
      exfalso. assert (Hin : In (k, v) (owned_by s o)) by (rewrite E; now left).
      unfold owned_by in Hin. apply filter_In in Hin as [Hin Hv].
      simpl in Hv. apply String.eqb_eq in Hv. subst v.
      apply (Hno k).
      - apply own_keys_In. change k with (fst (k, s)). now apply in_map.
      - now apply In_get_own. }
    split; [reflexivity|]. split; [reflexivity|]. congruence.
  - destruct (delete_held_entry s o u Hu Hg) as [Hothers Hcount].
    split; [exact Hothers|]. split.
    + intros Hnone. rewrite Hnone in Hcount. discriminate.
    + intros _. split; [exact Hcount | reflexivity].
Qed.

Lemma sqlite_only_disconnect_removes_one_witness :
  not_owned_by "s1"
    (fst (SqliteOnly.on_disconnect "s1" [("ann", "s1"); ("amy", "s1"); ("bob", "s2")]))
  = not_owned_by "s1" [("ann", "s1"); ("amy", "s1"); ("bob", "s2")] /\
  (owned_by "s1" [("ann", "s1"); ("amy", "s1"); ("bob", "s2")] = [] ->
   SqliteOnly.on_disconnect "s1" [("ann", "s1"); ("amy", "s1"); ("bob", "s2")]
   = ([("ann", "s1"); ("amy", "s1"); ("bob", "s2")], [])) /\
  (owned_by "s1" [("ann", "s1"); ("amy", "s1"); ("bob", "s2")] <> [] ->
   S (List.length
        (owned_by "s1"
           (fst (SqliteOnly.on_disconnect "s1"
                   [("ann", "s1"); ("amy", "s1"); ("bob", "s2")]))))
   = List.length (owned_by "s1" [("ann", "s1"); ("amy", "s1"); ("bob", "s2")]) /\
   snd (SqliteOnly.on_disconnect "s1" [("ann", "s1"); ("amy", "s1"); ("bob", "s2")])
   = [io_emit (updateOnline
        (own_keys (fst (SqliteOnly.on_disconnect "s1"
                          [("ann", "s1"); ("amy", "s1"); ("bob", "s2")]))))]).
Proof.
  apply (sqlite_only_disconnect_removes_one "s1"
           [("ann", "s1"); ("amy", "s1"); ("bob", "s2")]).
  unfold unique_keys. simpl.
  repeat (constructor; [simpl; intuition discriminate|]). constructor.
Defined.

(* ================================================================== *)
(** * Further properties of the request handlers *)
(* ================================================================== *)

(** ** The handlers on the embedded store *)

Lemma parse_sequential_select_user :
  Engine.parse_sequential Sql.select_user = Some Engine.SelectUser.
Proof. reflexivity. Qed.

Lemma post_register_embedded req now t :
  post_register Engine.driver sqlite req now t
  = if existsb (fun r => Engine.sql_equal (Engine.username r) (bind (reg_username req)))
         (Engine.users t)
    then (res_json (failure "Username exists"), t)
    else (res_json success_true,
          {| Engine.users :=
               (Engine.users t
                ++ [stored_user (Engine.next_id Engine.user_id (Engine.users t)) req])%list;
             Engine.messages := Engine.messages t |}).
Proof.
  unfold post_register, runExecute. cbn [Engine.driver sqlite_run].
  unfold Engine.run. rewrite parse_sequential_insert_user. cbn [Engine.exec].
  now destruct (existsb _ (Engine.users t)).
Qed.

Lemma post_login_embedded req now t :
  post_login Engine.driver sqlite req now t
  = (match filter (credentials_match (bind (login_username req))
                     (bind (login_password req))) (Engine.users t) with
     | [] => res_json (failure "Invalid login")
     | r :: _ =>
         if sql_truthy (Engine.usb_key r) && negb (truthy (usb_present req))
         then res_json (failure "USB required")
         else res_json (JsObj [("success", JsBool true);
                               ("user", row_json (Engine.user_row r))])
     end, t).
Proof.
  unfold post_login, runQuery. cbn [Engine.driver sqlite_all].
  unfold Engine.run. rewrite parse_sequential_select_user.
  cbn [Engine.exec then_ Engine.out_rows].
  fold (credentials_match (bind (login_username req)) (bind (login_password req))).
  destruct (filter _ (Engine.users t)) as [|r rest]; [reflexivity|].
  cbn [map]. change (column_truthy "usb_key" (Engine.user_row r))
    with (sql_truthy (Engine.usb_key r)).
  now destruct (sql_truthy (Engine.usb_key r) && negb (truthy (usb_present req))).
Qed.

Lemma no_username_no_match u p us :
  existsb (fun r => Engine.sql_equal (Engine.username r) u) us = false ->
  filter (credentials_match u p) us = [].
Proof.
  induction us as [|r us IH]; simpl; [reflexivity|].
  intros H. apply orb_false_iff in H as [Hr Hus].
  unfold credentials_match at 1. rewrite Hr. simpl. now apply IH.
Qed.

(** X7.  Registering a username that no row holds and then logging in
    with the same username and password finds exactly the row that was
    stored.  The login succeeds and returns that row unless a non-empty
    USB key was registered and the indicator is falsy; a key given as
    the empty string is stored as NULL and asks for no second factor. *)
Theorem register_then_login t req u p indicator now now' :
  reg_username req = Some u -> reg_password req = Some p ->
  existsb (fun r => Engine.sql_equal (Engine.username r) (SqlText u))
    (Engine.users t) = false ->
  exists t',
    post_register Engine.driver sqlite req now t = (res_json success_true, t') /\
    Engine.users t'
    = (Engine.users t
       ++ [stored_user (Engine.next_id Engine.user_id (Engine.users t)) req])%list /\
    post_login Engine.driver sqlite
      {| login_username := Some u; login_password := Some p;
         usb_present := indicator |} now' t'
    = (if sql_truthy (or_null (reg_usb_key req)) && negb (truthy indicator)
       then res_json (failure "USB required")
       else res_json
              (JsObj [("success", JsBool true);
                      ("user",
                       row_json
                         (Engine.user_row
                            (stored_user
                               (Engine.next_id Engine.user_id (Engine.users t))
                               req)))]),
       t') /\
    (reg_usb_key req = Some "" -> or_null (reg_usb_key req) = SqlNull).
Proof.
  intros Hu Hp Hfresh. rewrite post_register_embedded, Hu. cbn [bind].
  rewrite Hfresh. eexists. split; [reflexivity|]. split; [reflexivity|]. split.
  - rewrite post_login_embedded. cbn [login_username login_password bind
                                       usb_present Engine.users].
    rewrite filter_app, (no_username_no_match _ _ _ Hfresh).
    cbn [filter app]. unfold credentials_match, stored_user.
    cbn [Engine.username Engine.password Engine.usb_key].
    rewrite Hu, Hp. cbn [bind Engine.sql_equal sqlval_eqb].
    now rewrite !String.eqb_refl.
  - intros ->. reflexivity.
Qed.

Lemma register_then_login_witness :
  exists t',
    post_register Engine.driver sqlite alice 0 Engine.empty
    = (res_json success_true, t') /\
    Engine.users t'
    = (Engine.users Engine.empty
       ++ [stored_user (Engine.next_id Engine.user_id (Engine.users Engine.empty))
             alice])%list /\
    post_login Engine.driver sqlite
      {| login_username := Some "alice"; login_password := Some "pw";
         usb_present := JStr "yes" |} 1 t'
    = (if sql_truthy (or_null (reg_usb_key alice)) && negb (truthy (JStr "yes"))
       then res_json (failure "USB required")
       else res_json
              (JsObj [("success", JsBool true);
                      ("user",
                       row_json
                         (Engine.user_row
                            (stored_user
                               (Engine.next_id Engine.user_id
                                  (Engine.users Engine.empty))
                               alice)))]),
       t') /\
    (reg_usb_key alice = Some "" -> or_null (reg_usb_key alice) = SqlNull).
Proof.
  apply (register_then_login Engine.empty alice "alice" "pw" (JStr "yes") 0%Z 1%Z);
    reflexivity.
Defined.

Lemma credentials_never_match_null p us :
  filter (credentials_match SqlNull p) us = [] /\
  filter (credentials_match p SqlNull) us = [].
Proof.
  split; induction us as [|r us IH]; simpl; try reflexivity.
  - unfold credentials_match at 1.
    now destruct (Engine.username r).
  - unfold credentials_match at 1.
    destruct (Engine.password r); rewrite ?andb_false_r; try exact IH;
      destruct p; rewrite ?andb_false_r; exact IH.
Qed.

(** X8.  On the embedded store a login is answered "Invalid login"
    exactly when no stored row holds both the username and the password
    of the request.  A request that leaves out the username or the
    password is always answered so, since NULL equals nothing. *)
Theorem login_invalid_iff_no_match t req now :
  (fst (post_login Engine.driver sqlite req now t) = res_json (failure "Invalid login")
   <-> filter (credentials_match (bind (login_username req))
                 (bind (login_password req))) (Engine.users t) = []) /\
  (login_username req = None \/ login_password req = None ->
   fst (post_login Engine.driver sqlite req now t)
   = res_json (failure "Invalid login")).
Proof.
  rewrite post_login_embedded. cbn [fst]. split.
  - destruct (filter _ (Engine.users t)) as [|r rest].
    + split; reflexivity.
    + split; [|discriminate].
      destruct (sql_truthy (Engine.usb_key r) && negb (truthy (usb_present req)));
        discriminate.
  - intros [H|H]; rewrite H; cbn [bind].
    + now rewrite (proj1 (credentials_never_match_null _ _)).
    + now rewrite (proj2 (credentials_never_match_null _ _)).
Qed.

Lemma login_invalid_iff_no_match_witness :
  fst (post_login Engine.driver sqlite
         {| login_username := None; login_password := Some "pw";
            usb_present := JBool true |} 0 alice_registered)
  = res_json (failure "Invalid login").
Proof.
  apply (proj2 (login_invalid_iff_no_match alice_registered
                  {| login_username := None; login_password := Some "pw";
                     usb_present := JBool true |} 0%Z)).
  left. reflexivity.
Defined.

(** ** Runs of requests *)

Lemma serve_embedded db r now t :
  (serve Engine.driver db r now t = (fst (fst (serve Engine.driver db r now t)), [], t) /\
   (writes r = true -> succeeded (fst (fst (serve Engine.driver db r now t))) = false))
  \/
  (db = sqlite /\ exists req,
      r = PostRegister req /\
      existsb (fun u => Engine.sql_equal (Engine.username u) (bind (reg_username req)))
        (Engine.users t) = false /\
      serve Engine.driver db r now t
      = (res_json success_true, [],
         {| Engine.users :=
              (Engine.users t
               ++ [stored_user (Engine.next_id Engine.user_id (Engine.users t)) req])%list;
            Engine.messages := Engine.messages t |}))
  \/
  (db = sqlite /\ exists req date,
      r = PostMessage req date /\
      serve Engine.driver db r now t
      = (res_json success_true,
         [io_emit (newMessage (msg_sender req) (msg_message req) date)],
         {| Engine.users := Engine.users t;
            Engine.messages :=
              (Engine.messages t
               ++ [stored_message (Engine.next_id Engine.message_id (Engine.messages t))
                     req (Engine.current_timestamp sqlite now)])%list |})).
Proof.
  destruct r as [req|req| |req date]; destruct db; cbn [serve].
  - left. split; [reflexivity | reflexivity].
  - rewrite post_register_embedded.
    destruct (existsb _ (Engine.users t)) eqn:E.
    + left. split; reflexivity.
    + right. left. split; [reflexivity|]. exists req. repeat split. exact E.
  - left. split; [reflexivity | discriminate].
  - rewrite post_login_embedded. left. split; [reflexivity | discriminate].
  - left. split; [|discriminate].
    unfold get_messages, runQuery. cbn [Engine.driver pool_query].
    unfold Engine.run. cbn. reflexivity.
  - rewrite get_messages_embedded. left. split; [reflexivity | discriminate].
  - left. split; reflexivity.
  - rewrite post_message_embedded. right. right. split; [reflexivity|].
    exists req, date. split; reflexivity.
Qed.

(** X9.  On the model store a request changes the tables only if it is
    a registration or a post, on the embedded backend, and is answered
    with success.  Logins, history fetches and every request that is
    answered with a failure leave the store exactly as it was. *)
Theorem only_successful_writes_change_the_store db r now t :
  snd (serve Engine.driver db r now t) <> t ->
  db = sqlite /\ writes r = true /\
  succeeded (fst (fst (serve Engine.driver db r now t))) = true.
Proof.
  intros Hchanged.
  destruct (serve_embedded db r now t)
    as [[Heq _]|[[Hdb [req [Hr [_ Heq]]]]|[Hdb [req [date [Hr Heq]]]]]].
  - rewrite Heq in Hchanged. cbn [snd] in Hchanged. congruence.
  - rewrite Heq. subst. repeat split.
  - rewrite Heq. subst. repeat split.
Qed.

Lemma only_successful_writes_change_the_store_witness :
  sqlite = sqlite /\ writes (PostMessage hello 11) = true /\
  succeeded (fst (fst (serve Engine.driver sqlite (PostMessage hello 11) 10
                         Engine.empty))) = true.
Proof.
  apply (only_successful_writes_change_the_store sqlite (PostMessage hello 11)
           10%Z Engine.empty).
  discriminate.
Defined.

(** X10.  Over any run of requests the two tables only grow at the end:
    no stored user or message is ever changed or removed.  The events
    the run emits are [newMessage] events only, one per message row the
    run added, in the same order and with the sender and body the row
    holds. *)
Theorem store_is_append_only db rs t :
  exists new_users new_messages,
    Engine.users (snd (serve_all Engine.driver db rs t))
    = (Engine.users t ++ new_users)%list /\
    Engine.messages (snd (serve_all Engine.driver db rs t))
    = (Engine.messages t ++ new_messages)%list /\
    map (fun m => (Engine.sender m, Engine.message m)) new_messages
    = map emitted_message (snd (fst (serve_all Engine.driver db rs t))) /\
    forallb is_newMessage (snd (fst (serve_all Engine.driver db rs t))) = true.
Proof.
  revert t. induction rs as [|[r now] rs IH]; intros t.
  - exists [], []. cbn. rewrite !app_nil_r. repeat split.
  - cbn [serve_all].
    destruct (serve_embedded db r now t)
      as [[Heq _]|[[Hdb [req [Hr [_ Heq]]]]|[Hdb [req [date [Hr Heq]]]]]];
      rewrite Heq; clear Heq.
    + destruct (IH t) as [nu [nm [Hu [Hm [Hc He]]]]].
      destruct (serve_all Engine.driver db rs t) as [[resps outs] t2].
      cbn [fst snd app] in *. exists nu, nm. auto.
    + match goal with
      | |- context [serve_all _ _ _ ?t1] =>
          destruct (IH t1) as [nu [nm [Hu [Hm [Hc He]]]]];
          destruct (serve_all Engine.driver db rs t1) as [[resps outs] t2]
      end.
      cbn [fst snd app Engine.users Engine.messages] in *.
      eexists (_ :: nu), nm. rewrite Hu, <- app_assoc.
      split; [reflexivity|]. auto.
    + match goal with
      | |- context [serve_all _ _ _ ?t1] =>
          destruct (IH t1) as [nu [nm [Hu [Hm [Hc He]]]]];
          destruct (serve_all Engine.driver db rs t1) as [[resps outs] t2]
      end.
      cbn [fst snd app Engine.users Engine.messages] in *.
      eexists nu, (_ :: nm). rewrite Hm, <- app_assoc.
      split; [exact Hu|]. split; [reflexivity|]. split.
      * cbn [map]. rewrite Hc. reflexivity.
      * cbn [forallb is_newMessage]. exact He.
Qed.

Lemma next_id_above {A} (id : A -> Z) l r :
  In r l -> (id r < Engine.next_id id l)%Z.
Proof.
  unfold Engine.next_id. induction l as [|a l IH]; simpl; [tauto|].
  intros [->|Hin]; [lia|]. specialize (IH Hin). lia.
Qed.

Lemma next_id_fresh {A} (id : A -> Z) l : ~ In (Engine.next_id id l) (map id l).
Proof.
  intros Hin. apply in_map_iff in Hin as [r [Heq Hin]].
  pose proof (next_id_above id l r Hin). lia.
Qed.

Lemma NoDup_snoc {A} (l : list A) a : NoDup l -> ~ In a l -> NoDup (l ++ [a])%list.
Proof.
  intros Hnd Hnot. apply (Permutation_NoDup (l := a :: l)).
  - apply Permutation_cons_append.
  - now constructor.
Qed.

Lemma taken_username_is_found s us :
  In s (usernames us) ->
  existsb (fun u => Engine.sql_equal (Engine.username u) (SqlText s)) us = true.
Proof.
  unfold usernames. intros Hin. apply in_flat_map in Hin as [r [Hr Hs]].
  apply existsb_exists. exists r. split; [exact Hr|].
  destruct (Engine.username r) as [|z|s']; simpl in Hs; try tauto.
  destruct Hs as [->|[]]. simpl. apply String.eqb_refl.
Qed.

Lemma serve_keeps_keys_unique db r now t :
  keys_unique t -> keys_unique (snd (serve Engine.driver db r now t)).
Proof.
  intros [Hnames [Huid Hmid]].
  destruct (serve_embedded db r now t)
    as [[Heq _]|[[Hdb [req [Hr [Hfree Heq]]]]|[Hdb [req [date [Hr Heq]]]]]];
    rewrite Heq; cbn [snd]; unfold keys_unique; cbn [Engine.users Engine.messages].
  - auto.
  - split; [|split; [|exact Hmid]].
    + unfold usernames. rewrite flat_map_app. cbn [flat_map stored_user Engine.username].
      rewrite app_nil_r.
      destruct (reg_username req) as [s|]; cbn [bind] in *.
      * apply NoDup_snoc; [exact Hnames|].
        intros Hin. apply taken_username_is_found in Hin. congruence.
      * now rewrite app_nil_r.
    + rewrite map_app. cbn [map stored_user Engine.user_id].
      apply NoDup_snoc; [exact Huid | apply next_id_fresh].
  - split; [exact Hnames|]. split; [exact Huid|].
    rewrite map_app. cbn [map stored_message Engine.message_id].
    apply NoDup_snoc; [exact Hmid | apply next_id_fresh].
Qed.

Lemma serve_all_snd {Store} (drv : Driver Store) db r now rs st :
  snd (serve_all drv db ((r, now) :: rs) st)
  = snd (serve_all drv db rs (snd (serve drv db r now st))).
Proof.
  cbn [serve_all]. destruct (serve drv db r now st) as [[resp out] st1].
  cbn [snd]. now destruct (serve_all drv db rs st1) as [[resps outs] st2].
Qed.

(** X11.  Whatever requests the server has answered since the store was
    empty, no two rows of [users] hold the same username and no two
    rows of a table the same id. *)
Theorem keys_stay_unique db rs :
  keys_unique (snd (serve_all Engine.driver db rs Engine.empty)).
Proof.
  assert (H : forall t, keys_unique t ->
                        keys_unique (snd (serve_all Engine.driver db rs t))).
  { induction rs as [|[r now] rs IH]; intros t Ht; [exact Ht|].
    rewrite serve_all_snd. apply IH. now apply serve_keeps_keys_unique. }
  apply H. repeat split; constructor.
Qed.

Lemma serve_keeps_registered_shape db r now t :
  Forall registered_shape (Engine.users t) ->
  Forall registered_shape (Engine.users (snd (serve Engine.driver db r now t))).
Proof.
  intros Hall.
  destruct (serve_embedded db r now t)
    as [[Heq _]|[[Hdb [req [Hr [Hfree Heq]]]]|[Hdb [req [date [Hr Heq]]]]]];
    rewrite Heq; cbn [snd Engine.users]; try exact Hall.
  apply Forall_app. split; [exact Hall|]. constructor; [|constructor].
  unfold registered_shape, stored_user. cbn [Engine.usb_key Engine.profile_pic]. split.
  - destruct (reg_usb_key req) as [k|]; cbn [or_null]; [|now left].
    destruct (k =? "") eqn:E; [now left|].
    right. exists k. split; [reflexivity | now apply String.eqb_neq].
  - destruct (reg_file req) as [filename|]; [|now left].
    right. now exists filename.
Qed.

(** X12.  Every row the server has put into [users] holds a USB key
    that is NULL or a non-empty text, never the empty string, and a
    picture path that is empty or starts with [/uploads/]. *)
Theorem stored_users_have_registered_shape db rs :
  Forall registered_shape
    (Engine.users (snd (serve_all Engine.driver db rs Engine.empty))).
Proof.
  assert (H : forall t, Forall registered_shape (Engine.users t) ->
                        Forall registered_shape
                          (Engine.users (snd (serve_all Engine.driver db rs t)))).
  { induction rs as [|[r now] rs IH]; intros t Ht; [exact Ht|].
    rewrite serve_all_snd. apply IH. now apply serve_keeps_registered_shape. }
  apply H. constructor.
Qed.

(** X13.  With the networked backend selected, every statement that
    carries a [?] is rejected by the model store: registration, login
    and posting are always answered with their failure, nothing is
    stored and nothing is broadcast, however many requests are served.
    Only the history query, which has no placeholder, is answered as on
    the embedded backend: status 200 with the same messages in the same
    order, each store writing the timestamps its own way. *)
Theorem networked_backend_serves_history_only :
  (forall req now t,
      serve Engine.driver postgres (PostRegister req) now t
      = (res_json (failure "Username exists"), [], t)) /\
  (forall req now t,
      serve Engine.driver postgres (PostLogin req) now t
      = (res_json success_false, [], t)) /\
  (forall req date now t,
      serve Engine.driver postgres (PostMessage req date) now t
      = (res_json success_false, [], t)) /\
  (forall now t,
      serve Engine.driver postgres GetMessages now t
      = (res_json (JsArr (map (fun m => row_json (Engine.pg_message_row m))
                            (Engine.order_by_timestamp (Engine.messages t)))),
         [], t) /\
      serve Engine.driver sqlite GetMessages now t
      = (res_json (JsArr (map (fun m => row_json (Engine.message_row m))
                            (Engine.order_by_timestamp (Engine.messages t)))),
         [], t)) /\
  (forall rs t,
      snd (serve_all Engine.driver postgres rs t) = t /\
      snd (fst (serve_all Engine.driver postgres rs t)) = []).
Proof.
  split; [reflexivity|]. split; [reflexivity|]. split; [reflexivity|].
  split.
  { intros now t. split.
    - cbn [serve]. unfold get_messages, runQuery. cbn [Engine.driver pool_query].
      unfold Engine.run. cbn. now rewrite map_map.
    - cbn [serve]. now rewrite get_messages_embedded. }
  induction rs as [|[r now] rs IH]; intros t; [split; reflexivity|].
  cbn [serve_all].
  assert (Hstep : exists resp, serve Engine.driver postgres r now t = (resp, [], t)).
  { destruct r as [req|req| |req date]; eexists; reflexivity. }
  destruct Hstep as [resp ->]. destruct (IH t) as [Hst Hout].
  destruct (serve_all Engine.driver postgres rs t) as [[resps outs] t2].
  cbn [fst snd app] in *. now split.
Qed.

(** X14.  The dual-backend server never sets an error status: whatever
    the request, the driver and the outcome of the store call, the
    response goes out with status 200, so a client can tell a failure
    only from the body. *)
Theorem dual_backend_always_answers_200 :
  forall (Store : Type) (drv : Driver Store) db r now st,
    status (fst (fst (serve drv db r now st))) = 200.
Proof.
  intros Store drv db r now st. destruct r as [req|req| |req date]; cbn [serve].
  - unfold post_register.
    now destruct (runExecute drv db Sql.insert_user _ now st) as [[e|x] st'].
  - unfold post_login.
    destruct (runQuery drv db Sql.select_user _ now st) as [[e|rows] st'];
      [reflexivity|].
    destruct rows as [|user rest]; [reflexivity|].
    now destruct (column_truthy "usb_key" user && negb (truthy (usb_present req))).
  - unfold get_messages.
    now destruct (runQuery drv db Sql.select_messages [] now st) as [[e|rows] st'].
  - unfold post_message.
    now destruct (runExecute drv db Sql.insert_message _ now st) as [[e|x] st'].
Qed.

(** X15.  In the PostgreSQL-only server the status tells success from
    failure, for every driver: register, login and post answer 200
    exactly when the body says success, and the history answers 200 when
    the query resolved and 500 when it was rejected. *)
Theorem postgres_only_status_tells_failure :
  forall (Store : Type) (drv : Driver Store),
    (forall req now st,
        status (fst (PostgresOnly.post_register drv req now st)) = 200
        <-> succeeded (fst (PostgresOnly.post_register drv req now st)) = true) /\
    (forall req now st,
        status (fst (PostgresOnly.post_login drv req now st)) = 200
        <-> succeeded (fst (PostgresOnly.post_login drv req now st)) = true) /\
    (forall req now date st,
        status (fst (fst (PostgresOnly.post_message drv req now date st))) = 200
        <-> succeeded (fst (fst (PostgresOnly.post_message drv req now date st))) = true) /\
    (forall now st,
        match fst (PostgresOnly.runQuery drv PostgresOnly.select_messages [] now st) with
        | inr rows =>
            fst (PostgresOnly.get_messages drv now st)
            = res_json (JsArr (map row_json rows))
        | inl _ =>
            fst (PostgresOnly.get_messages drv now st)
            = res_status_json 500 (JsArr [])
        end).
Proof.
  intros Store drv. split; [|split; [|split]].
  - intros req now st. unfold PostgresOnly.post_register.
    destruct (PostgresOnly.runExecute drv PostgresOnly.insert_user _ now st)
      as [[e|x] st']; cbn; split; intros; try reflexivity; discriminate.
  - intros req now st. unfold PostgresOnly.post_login.
    destruct (PostgresOnly.runQuery drv PostgresOnly.select_user _ now st)
      as [[e|rows] st'].
    + cbn; split; intros; discriminate.
    + destruct rows as [|user rest]; [cbn; split; intros; discriminate|].
      destruct (column_truthy "usb_key" user && negb (truthy (usb_present req)));
        cbn; split; intros; try reflexivity; discriminate.
  - intros req now date st. unfold PostgresOnly.post_message.
    destruct (PostgresOnly.runExecute drv PostgresOnly.insert_message _ now st)
      as [[e|x] st']; cbn; split; intros; try reflexivity; discriminate.
  - intros now st. unfold PostgresOnly.get_messages.
    now destruct (PostgresOnly.runQuery drv PostgresOnly.select_messages [] now st)
      as [[e|rows] st'].
Qed.

(** X16.  In the SQLite-only script too the status tells success from
    failure, for every driver: register, login and post answer 200
    exactly when the body says success, a rejected login or post is a
    500, and a rejected history query is a 500 with a failure object
    where a resolved one is a 200 with the rows. *)
Theorem sqlite_only_status_tells_failure :
  forall (Store : Type) (drv : Driver Store),
    (forall req now st,
        status (fst (SqliteOnly.post_register drv req now st)) = 200
        <-> succeeded (fst (SqliteOnly.post_register drv req now st)) = true) /\
    (forall req now st,
        (status (fst (SqliteOnly.post_login drv req now st)) = 200
         <-> succeeded (fst (SqliteOnly.post_login drv req now st)) = true) /\
        (status (fst (SqliteOnly.post_login drv req now st)) = 500
         <-> exists e, fst (sqlite_all drv Sql.select_user
                              [bind (login_username req); bind (login_password req)]
                              now st) = inl e)) /\
    (forall req now date st,
        status (fst (fst (SqliteOnly.post_message drv req now date st))) = 200
        <-> succeeded (fst (fst (SqliteOnly.post_message drv req now date st))) = true) /\
    (forall now st,
        match fst (sqlite_all drv Sql.select_messages [] now st) with
        | inr rows =>
            fst (SqliteOnly.get_messages drv now st)
            = res_json (JsArr (map row_json rows))
        | inl _ =>
            fst (SqliteOnly.get_messages drv now st)
            = res_status_json 500 (failure "Server error")
        end).
Proof.
  intros Store drv. split; [|split; [|split]].
  - intros req now st. unfold SqliteOnly.post_register.
    destruct (sqlite_run drv Sql.insert_user _ now st) as [[e|x] st'];
      cbn; split; intros; try reflexivity; discriminate.
  - intros req now st. unfold SqliteOnly.post_login, SqliteOnly.db_get.
    destruct (sqlite_all drv Sql.select_user _ now st) as [[e|rows] st'].
    + cbn. split; split; intros; try discriminate; try reflexivity.
      now exists e.
    + destruct rows as [|user rest]; cbn [then_ hd_error].
      * cbn. split; split; intros H; try discriminate.
        destruct H as [e H]. discriminate.
      * destruct (column_truthy "usb_key" user && negb (truthy (usb_present req)));
          cbn; split; split; intros H; try reflexivity; try discriminate;
          destruct H as [e H]; discriminate.
  - intros req now date st. unfold SqliteOnly.post_message.
    destruct (sqlite_run drv Sql.insert_message _ now st) as [[e|x] st'];
      cbn; split; intros; try reflexivity; discriminate.
  - intros now st. unfold SqliteOnly.get_messages.
    now destruct (sqlite_all drv Sql.select_messages [] now st) as [[e|rows] st'].
Qed.


(** X18.  The second-factor indicator is judged by JavaScript
    truthiness, not by its meaning: when the matched row holds a USB
    key, any non-empty string passes the check, the strings [false] and
    [0] among them, while the empty string, [false], [0], [null] and a
    missing indicator do not. *)
Theorem indicator_is_judged_by_truthiness :
  forall (Store : Type) (drv : Driver Store) db req now st user rest st',
    runQuery drv db Sql.select_user
      [bind (login_username req); bind (login_password req)] now st
    = (inr (user :: rest), st') ->
    column_truthy "usb_key" user = true ->
    (forall s, usb_present req = JStr s -> s <> "" ->
               succeeded (fst (post_login drv db req now st)) = true) /\
    (usb_present req = JStr "" \/ usb_present req = JBool false \/
     usb_present req = JNum 0 \/ usb_present req = JNull \/
     usb_present req = JUndefined ->
     fst (post_login drv db req now st) = res_json (failure "USB required")).
Proof.
  intros Store drv db req now st user rest st' Hq Hkey.
  unfold post_login. rewrite Hq, Hkey. split.
  - intros s Hs Hne. rewrite Hs. cbn [truthy].
    apply String.eqb_neq in Hne. now rewrite Hne.
  - intros [H|[H|[H|[H|H]]]]; now rewrite H.
Qed.

Lemma indicator_is_judged_by_truthiness_witness :
  succeeded (fst (post_login Engine.driver sqlite (alice_login (JStr "false")) 0
                    alice_registered)) = true.
Proof.
  apply (proj1 (indicator_is_judged_by_truthiness Engine.Tables
                  Engine.driver sqlite (alice_login (JStr "false")) 0%Z
                  alice_registered (Engine.user_row alice_stored) []
                  alice_registered eq_refl eq_refl) "false" eq_refl).
  discriminate.
Defined.

(* ================================================================== *)
(** * What the store holds and what the responses carry *)
(* ================================================================== *)

(** The clock texts at known instants, a leap day and the turn of a year
    among them. *)
Lemma datetime_texts :
  sqlite_datetime 0 = "1970-01-01 00:00:00" /\
  sqlite_datetime 1700000000123 = "2023-11-14 22:13:20" /\
  iso_datetime 1700000000123 = "2023-11-14T22:13:20.123Z" /\
  sqlite_datetime 951782399999 = "2000-02-28 23:59:59" /\
  sqlite_datetime 1709164800000 = "2024-02-29 00:00:00" /\
  sqlite_datetime 1735689599999 = "2024-12-31 23:59:59" /\
  iso_datetime 1735689600000 = "2025-01-01T00:00:00.000Z".
Proof. repeat split; vm_compute; reflexivity. Qed.

(** SQLite keeps whole seconds: the text of the timestamp it assigns is
    the text of the clock reading. *)
Lemma sqlite_datetime_whole_seconds now :
  sqlite_datetime (Engine.current_timestamp sqlite now) = sqlite_datetime now.
Proof.
  unfold sqlite_datetime, date_text, time_text, Engine.current_timestamp.
  assert (Hs : (1000 * (now / 1000) / 1000 = now / 1000)%Z)
    by (rewrite Z.mul_comm; apply Z.div_mul; lia).
  assert (Hd : (1000 * (now / 1000) / 86400000 = now / 86400000)%Z).
  { change 86400000%Z with (1000 * 86400)%Z.
    rewrite <- !Z.div_div by lia. now rewrite Hs. }
  now rewrite Hs, Hd.
Qed.

Lemma sql_json_bind f : sql_json (bind f) = json_of_field f.
Proof. now destruct f. Qed.

(** ** C3: the history keeps the order of insertion *)

Lemma sorted_snoc {A} (R : A -> A -> Prop) l x :
  StronglySorted R l -> Forall (fun a => R a x) l ->
  StronglySorted R (l ++ [x])%list.
Proof.
  induction 1 as [|a l Hs IH Hall]; intros Hx; simpl.
  - repeat constructor.
  - inversion Hx as [|? ? Hax Hlx]; subst. constructor.
    + now apply IH.
    + apply Forall_app. split; [exact Hall | now constructor].
Qed.

(** Rows already in ascending timestamp order come back as they are,
    rows with equal timestamps included. *)
Lemma order_by_timestamp_sorted_id l :
  StronglySorted by_timestamp l -> Engine.order_by_timestamp l = l.
Proof.
  induction 1 as [|a l Hs IH Hall]; simpl; [reflexivity|].
  rewrite IH. destruct l as [|b l]; [reflexivity|]. simpl.
  inversion Hall as [|? ? Hab _]; subst. unfold by_timestamp in Hab.
  apply Z.leb_le in Hab. now rewrite Hab.
Qed.

Lemma current_timestamp_mono engine a b :
  (a <= b)%Z ->
  (Engine.current_timestamp engine a <= Engine.current_timestamp engine b)%Z.
Proof.
  intros H. destruct engine; unfold Engine.current_timestamp; [exact H|].
  pose proof (Z.div_le_mono a b 1000 ltac:(lia) H). lia.
Qed.

Lemma post_after_rows posts : forall clock t,
  StronglySorted by_timestamp (Engine.messages t) ->
  Forall (fun r => (Engine.timestamp r <= Engine.current_timestamp sqlite clock)%Z)
    (Engine.messages t) ->
  StronglySorted by_timestamp (Engine.messages (post_after clock posts t)) /\
  exists added,
    Engine.messages (post_after clock posts t) = (Engine.messages t ++ added)%list /\
    map (fun r => (Engine.sender r, Engine.message r)) added
    = map (fun p => (bind (msg_sender (snd p)), bind (msg_message (snd p)))) posts.
Proof.
  induction posts as [|[delay m] posts IH]; intros clock t Hs Hle; cbn [post_after].
  - split; [exact Hs|]. exists []. now rewrite app_nil_r.
  - rewrite post_message_embedded. cbn [snd].
    set (now := (clock + Z.of_N delay)%Z).
    set (row := stored_message
                  (Engine.next_id Engine.message_id (Engine.messages t)) m
                  (Engine.current_timestamp sqlite now)).
    assert (Hmono : (Engine.current_timestamp sqlite clock
                     <= Engine.current_timestamp sqlite now)%Z)
      by (apply current_timestamp_mono; unfold now; lia).
    assert (Hle' : Forall (fun r => (Engine.timestamp r
                                     <= Engine.current_timestamp sqlite now)%Z)
                     (Engine.messages t))
      by (eapply Forall_impl; [|exact Hle]; cbv beta; intros; lia).
    destruct (IH now {| Engine.users := Engine.users t;
                        Engine.messages := (Engine.messages t ++ [row])%list |})
      as [Hsorted [added [Hm Hc]]].
    + cbn [Engine.messages]. apply sorted_snoc; [exact Hs|].
      eapply Forall_impl; [|exact Hle']. cbv beta. unfold by_timestamp, row.
      cbn [Engine.timestamp stored_message]. trivial.
    + cbn [Engine.messages]. apply Forall_app. split; [exact Hle'|].
      constructor; [|constructor]. unfold row.
      cbn [Engine.timestamp stored_message]. lia.
    + split; [exact Hsorted|]. exists (row :: added). split.
      * rewrite Hm. cbn [Engine.messages]. now rewrite <- app_assoc.
      * cbn [map]. now rewrite Hc.
Qed.

(** C3.  Messages posted one after the other come back from the history
    in the order they were posted, whatever the time between two posts,
    none included.  The query arranges the rows by store-assigned
    timestamp, ascending, and the posted rows are in that arrangement
    already; the sender and body of the n-th item are those of the n-th
    post. *)
Theorem history_keeps_insertion_order start posts now :
  fst (get_messages Engine.driver sqlite now (post_after start posts Engine.empty))
  = res_json (history (Engine.messages (post_after start posts Engine.empty))) /\
  StronglySorted by_timestamp (Engine.messages (post_after start posts Engine.empty)) /\
  exists items,
    body (fst (get_messages Engine.driver sqlite now
                 (post_after start posts Engine.empty))) = JsArr items /\
    map (fun item => (json_get "sender" item, json_get "message" item)) items
    = map (fun p => (Some (json_of_field (msg_sender (snd p))),
                     Some (json_of_field (msg_message (snd p))))) posts.
Proof.
  destruct (post_after_rows posts start Engine.empty) as [Hs [added [Hm Hc]]];
    [constructor | constructor |].
  rewrite get_messages_embedded. cbn [fst body res_json].
  rewrite (order_by_timestamp_sorted_id _ Hs).
  split; [reflexivity|]. split; [exact Hs|].
  unfold history. eexists. split; [reflexivity|].
  rewrite Hm. cbn [Engine.messages Engine.empty app].
  rewrite map_map.
  transitivity (map (fun sm : sqlval * sqlval =>
                       (Some (sql_json (fst sm)), Some (sql_json (snd sm))))
                  (map (fun r => (Engine.sender r, Engine.message r)) added)).
  - rewrite map_map. apply map_ext. intros r. reflexivity.
  - rewrite Hc, map_map. apply map_ext. intros [delay m]. cbn [fst snd].
    now rewrite !sql_json_bind.
Qed.

(** Three messages posted within the same second: the response, in
    full. *)
Lemma three_messages_within_a_second :
  fst (get_messages Engine.driver sqlite 1700000009000
         (post_after 1700000000123 [(0%N, M1); (10%N, M2); (0%N, M3)] Engine.empty))
  = {| status := 200;
       body := JsArr
         [JsObj [("id", JsNum 1); ("sender", JsStr "alice"); ("message", JsStr "M1");
                 ("timestamp", JsStr "2023-11-14 22:13:20")];
          JsObj [("id", JsNum 2); ("sender", JsStr "bob"); ("message", JsStr "M2");
                 ("timestamp", JsStr "2023-11-14 22:13:20")];
          JsObj [("id", JsNum 3); ("sender", JsStr "alice"); ("message", JsStr "M3");
                 ("timestamp", JsStr "2023-11-14 22:13:20")]] |}.
Proof. vm_compute. reflexivity. Qed.

(** ** C7: what a successful login carries *)

Lemma member_rendered c (user : row) :
  member c (map (fun kv => (fst kv, sql_json (snd kv))) user)
  = option_map sql_json (row_get c user).
Proof.
  induction user as [|[k v] user IH]; simpl; [reflexivity|].
  destruct (k =? c); [reflexivity | exact IH].
Qed.

Lemma sql_equal_text v p : Engine.sql_equal v (SqlText p) = true -> v = SqlText p.
Proof.
  destruct v as [|z|s]; simpl; try discriminate.
  intros H. apply String.eqb_eq in H. now subst.
Qed.

(** C7.  A login that passes both checks answers with the whole row the
    store returned: the [user] member has the columns of the row, in
    order, a text column as the same string, a number as the same
    number, NULL as [null].  On the embedded store the [password] member
    of a successful login is the very text held in the [password]
    column of a stored row, which is the password of the request, and
    the [username] member likewise. *)
Theorem login_returns_stored_row :
  (forall (Store : Type) (drv : Driver Store) db req now st user rest st',
      runQuery drv db Sql.select_user
        [bind (login_username req); bind (login_password req)] now st
      = (inr (user :: rest), st') ->
      column_truthy "usb_key" user && negb (truthy (usb_present req)) = false ->
      exists user_json,
        post_login drv db req now st
        = (res_json (JsObj [("success", JsBool true); ("user", JsObj user_json)]),
           st') /\
        map fst user_json = map fst user /\
        (forall c s, row_get c user = Some (SqlText s) ->
                     member c user_json = Some (JsStr s)) /\
        (forall c z, row_get c user = Some (SqlInt z) ->
                     member c user_json = Some (JsNum z)) /\
        (forall c, row_get c user = Some SqlNull ->
                   member c user_json = Some JsNull) /\
        (forall c, row_get c user = None -> member c user_json = None)) /\
  (forall t req now,
      succeeded (fst (post_login Engine.driver sqlite req now t)) = true ->
      exists stored u p user_json,
        In stored (Engine.users t) /\
        login_username req = Some u /\ login_password req = Some p /\
        Engine.username stored = SqlText u /\
        Engine.password stored = SqlText p /\
        json_get "user" (body (fst (post_login Engine.driver sqlite req now t)))
        = Some user_json /\
        json_get "id" user_json = Some (JsNum (Engine.user_id stored)) /\
        json_get "username" user_json = Some (JsStr u) /\
        json_get "password" user_json = Some (JsStr p)).
Proof.
  split.
  - intros Store drv db req now st user rest st' Hq Hpass.
    exists (map (fun kv => (fst kv, sql_json (snd kv))) user).
    split; [|split; [|repeat split]].
    + unfold post_login. now rewrite Hq, Hpass.
    + rewrite map_map. apply map_ext. now intros [k v].
    + intros c s H. now rewrite member_rendered, H.
    + intros c z H. now rewrite member_rendered, H.
    + intros c H. now rewrite member_rendered, H.
    + intros c H. now rewrite member_rendered, H.
  - intros t req now. rewrite post_login_embedded. cbn [fst].
    destruct (filter _ (Engine.users t)) as [|stored rest] eqn:F;
      [discriminate|].
    assert (Hin : In stored
                    (filter (credentials_match (bind (login_username req))
                               (bind (login_password req))) (Engine.users t)))
      by (rewrite F; now left).
    apply filter_In in Hin as [Hin Hmatch].
    unfold credentials_match in Hmatch. apply andb_true_iff in Hmatch as [Hu Hp].
    destruct (login_username req) as [u|]; cbn [bind] in Hu;
      [|destruct (Engine.username stored); discriminate].
    destruct (login_password req) as [p|]; cbn [bind] in Hp;
      [|destruct (Engine.password stored); discriminate].
    apply sql_equal_text in Hu. apply sql_equal_text in Hp.
    destruct (sql_truthy (Engine.usb_key stored) && negb (truthy (usb_present req)));
      [discriminate|].
    intros _. exists stored, u, p. eexists.
    split; [exact Hin|]. split; [reflexivity|]. split; [reflexivity|].
    split; [exact Hu|]. split; [exact Hp|].
    split; [reflexivity|]. cbn. rewrite Hu, Hp. repeat split.
Qed.

Lemma login_returns_stored_row_witness :
  post_login Engine.driver sqlite (alice_login (JBool true)) 0 alice_registered
  = ({| status := 200;
        body := JsObj [("success", JsBool true);
                       ("user", JsObj [("id", JsNum 1); ("username", JsStr "alice");
                                       ("password", JsStr "pw");
                                       ("profile_pic", JsStr "");
                                       ("usb_key", JsStr "k1")])] |},
     alice_registered) /\
  exists stored u p user_json,
    In stored (Engine.users alice_registered) /\
    login_username (alice_login (JBool true)) = Some u /\
    login_password (alice_login (JBool true)) = Some p /\
    Engine.username stored = SqlText u /\
    Engine.password stored = SqlText p /\
    json_get "user"
      (body (fst (post_login Engine.driver sqlite (alice_login (JBool true)) 0
                    alice_registered)))
    = Some user_json /\
    json_get "id" user_json = Some (JsNum (Engine.user_id stored)) /\
    json_get "username" user_json = Some (JsStr u) /\
    json_get "password" user_json = Some (JsStr p).
Proof.
  split; [reflexivity|].
  apply (proj2 login_returns_stored_row alice_registered
           (alice_login (JBool true)) 0%Z).
  reflexivity.
Defined.

(** ** C9: what a post stores and what it broadcasts *)

(** C9.  A post that is answered with success has emitted exactly one
    event, a [newMessage] to every connected client; the insert is the
    one store call made, and it resolved.  On the embedded store that
    insert adds exactly one row to [messages] and changes nothing else,
    and the sender and body of the event are the sender and body this
    row holds: the same string where the request gave one, nothing in
    the event and NULL in the row where it gave none. *)
Theorem post_message_broadcasts_once :
  (forall (Store : Type) (drv : Driver Store) db req now date st resp out st',
      post_message drv db req now date st = (resp, out, st') ->
      resp = res_json success_true ->
      out = [io_emit (newMessage (msg_sender req) (msg_message req) date)] /\
      exists r,
        runExecute drv db Sql.insert_message
          [bind (msg_sender req); bind (msg_message req)] now st = (inr r, st')) /\
  (forall req now date t resp out t',
      post_message Engine.driver sqlite req now date t = (resp, out, t') ->
      resp = res_json success_true ->
      exists stored event_sender event_body,
        Engine.messages t' = (Engine.messages t ++ [stored])%list /\
        Engine.users t' = Engine.users t /\
        out = [io_emit (newMessage event_sender event_body date)] /\
        Engine.sender stored = match event_sender with
                               | Some s => SqlText s
                               | None => SqlNull
                               end /\
        Engine.message stored = match event_body with
                                | Some s => SqlText s
                                | None => SqlNull
                                end /\
        event_sender = msg_sender req /\ event_body = msg_message req).
Proof.
  split.
  - intros Store drv db req now date st resp out st'. unfold post_message.
    destruct (runExecute drv db Sql.insert_message _ now st) as [[e|r] st1].
    + intros [= <- <- <-]. discriminate.
    + intros [= <- <- <-] _. split; [reflexivity | now exists r].
  - intros req now date t resp out t'. rewrite post_message_embedded.
    intros [= <- <- <-] _.
    exists (stored_message (Engine.next_id Engine.message_id (Engine.messages t))
              req (Engine.current_timestamp sqlite now)),
      (msg_sender req), (msg_message req).
    cbn [Engine.messages Engine.users stored_message Engine.sender Engine.message].
    split; [reflexivity|]. split; [reflexivity|]. split; [reflexivity|].
    split; [now destruct (msg_sender req)|].
    split; [now destruct (msg_message req)|]. split; reflexivity.
Qed.

Lemma post_message_broadcasts_once_witness :
  post_message Engine.driver sqlite hello 1700000000123 1700000000456 Engine.empty
  = ({| status := 200; body := JsObj [("success", JsBool true)] |},
     [io_emit (newMessage (Some "alice") (Some "hello") 1700000000456)],
     {| Engine.users := [];
        Engine.messages :=
          [{| Engine.message_id := 1; Engine.sender := SqlText "alice";
              Engine.message := SqlText "hello";
              Engine.timestamp := 1700000000000 |}] |}) /\
  exists stored event_sender event_body,
    Engine.messages
      {| Engine.users := [];
         Engine.messages :=
           [{| Engine.message_id := 1; Engine.sender := SqlText "alice";
               Engine.message := SqlText "hello";
               Engine.timestamp := 1700000000000 |}] |}
    = (Engine.messages Engine.empty ++ [stored])%list /\
    Engine.users
      {| Engine.users := [];
         Engine.messages :=
           [{| Engine.message_id := 1; Engine.sender := SqlText "alice";
               Engine.message := SqlText "hello";
               Engine.timestamp := 1700000000000 |}] |}
    = Engine.users Engine.empty /\
    [io_emit (newMessage (Some "alice") (Some "hello") 1700000000456)]
    = [io_emit (newMessage event_sender event_body 1700000000456)] /\
    Engine.sender stored = match event_sender with
                           | Some s => SqlText s
                           | None => SqlNull
                           end /\
    Engine.message stored = match event_body with
                            | Some s => SqlText s
                            | None => SqlNull
                            end /\
    event_sender = msg_sender hello /\ event_body = msg_message hello.
Proof.
  split; [vm_compute; reflexivity|].
  apply (proj2 post_message_broadcasts_once hello 1700000000123%Z
           1700000000456%Z Engine.empty (res_json success_true)
           [io_emit (newMessage (Some "alice") (Some "hello") 1700000000456)]
           {| Engine.users := [];
              Engine.messages :=
                [{| Engine.message_id := 1; Engine.sender := SqlText "alice";
                    Engine.message := SqlText "hello";
                    Engine.timestamp := 1700000000000 |}] |}).
  - vm_compute. reflexivity.
  - reflexivity.
Defined.

(** ** X17: a posted message in the history *)

(** X17.  A message that was posted is in the history the next fetch
    returns: an item with the sender and the body of the post as the
    same strings, character for character ([null] for a field the post
    left out), and with the text of the store's clock reading at the
    insert, whole seconds, as its timestamp.  The history is one item
    longer than the table was. *)
Theorem posted_message_is_in_history t m now date now' :
  exists items,
    fst (get_messages Engine.driver sqlite now'
           (snd (post_message Engine.driver sqlite m now date t)))
    = res_json (JsArr items) /\
    List.length items = S (List.length (Engine.messages t)) /\
    exists item,
      In item items /\
      json_get "sender" item = Some (json_of_field (msg_sender m)) /\
      json_get "message" item = Some (json_of_field (msg_message m)) /\
      json_get "timestamp" item = Some (JsStr (sqlite_datetime now)).
Proof.
  rewrite post_message_embedded, get_messages_embedded. cbn [fst snd Engine.messages].
  unfold history. eexists. split; [reflexivity|]. split.
  - rewrite length_map, (Permutation_length (order_by_timestamp_perm _)),
      length_app. simpl. lia.
  - exists (row_json (Engine.message_row
                        (stored_message
                           (Engine.next_id Engine.message_id (Engine.messages t))
                           m (Engine.current_timestamp sqlite now)))).
    split; [|split; [|split]].
    + apply (in_map (fun r => row_json (Engine.message_row r))).
      apply (Permutation_in _ (Permutation_sym (order_by_timestamp_perm _))).
      apply in_or_app. right. now left.
    + cbn. now rewrite sql_json_bind.
    + cbn. now rewrite sql_json_bind.
    + cbn [row_json Engine.message_row map fst snd json_get member
             stored_message Engine.timestamp Engine.message_id Engine.sender
             Engine.message sql_json].
      cbn [String.eqb Ascii.eqb Bool.eqb].
      now rewrite sqlite_datetime_whole_seconds.
Qed.

(** A post with quotes, brackets and SQL in it, fetched back: the
    response, in full. *)
Lemma tricky_message_round_trip :
  fst (get_messages Engine.driver sqlite 1700000009000
         (snd (post_message Engine.driver sqlite tricky 1700000000123
                 1700000000456 Engine.empty)))
  = {| status := 200;
       body := JsArr
         [JsObj [("id", JsNum 1); ("sender", JsStr "o'brien");
                 ("message",
                  JsStr "it's <b>100%</b> \ {ok}; DROP TABLE messages;--");
                 ("timestamp", JsStr "2023-11-14 22:13:20")]] |}.
Proof. vm_compute. reflexivity. Qed.
